(** * Rita-go-streamer: the streaming bridge, embedded and verified

    The two programs of the repository, [stream.go] (live named pipes,
    presence-based shutdown) and [stream-file.go] (static input files,
    fixed run time), are translated function by function.  Closure
    variables of [main] become a record that is threaded through the
    callbacks, [fmt.Printf]/[log] output becomes a list of structured
    lines, and the fallible start-up sequence of [main] runs in a small
    trace-and-exit monad. *)

From Stdlib Require Import String ZArith List Bool Lia.
From Stdlib Require Strings.Byte.
Import ListNotations.
Open Scope Z_scope.

(** ** Machine integers and time *)

(** Go's [int] and [int64] on the 64-bit targets the program is built
    for: two's complement with silent wrap-around. *)
Definition wrap64 (z : Z) : Z := (z + 2 ^ 63) mod 2 ^ 64 - 2 ^ 63.

Definition in_int64 (z : Z) : Prop := - 2 ^ 63 <= z < 2 ^ 63.

(** [time.Duration] is an [int64] count of nanoseconds. *)
Definition Duration := Z.
Definition Millisecond : Duration := 1000000.
Definition Second : Duration := 1000 * Millisecond.
Definition Hour : Duration := 3600 * Second.
Definition maxDuration : Duration := 2 ^ 63 - 1.
Definition minDuration : Duration := - 2 ^ 63.

(** [time.Time]: a wall-clock reading in nanoseconds and, for values
    obtained from [time.Now()], a monotonic reading (an [int64]).  The
    zero value has no monotonic reading. *)
Record Time := mkTime { wall : Z; mono : option Z }.

Definition zeroTime : Time := mkTime 0 None.

(** [subMono] of package time. *)
Definition subMono (t u : Z) : Duration :=
  let d := wrap64 (t - u) in
  if (d <? 0) && (t >? u) then maxDuration
  else if (d >? 0) && (t <? u) then minDuration
  else d.

(** The wall-clock branch of [Time.Sub]: the exact difference when it
    fits a [Duration], the nearest bound otherwise. *)
Definition saturate (z : Z) : Duration :=
  if z >? maxDuration then maxDuration
  else if z <? minDuration then minDuration
  else z.

Definition Sub (t u : Time) : Duration :=
  match mono t, mono u with
  | Some a, Some b => subMono a b
  | _, _ => saturate (wall t - wall u)
  end.

(** What [time.Now()] can return: a monotonic reading is present and is
    a non-negative [int64]. *)
Definition fromNow (t : Time) : Prop :=
  exists m, mono t = Some m /\ 0 <= m < 2 ^ 63.

(** ** Presence-based shutdown loop ([stream.go], end of [main]) *)

Definition Participant := string.

Inductive tick :=
| Continue (noParticipantsCount : Z)
| Break.

(** One iteration of the [for] loop, after the one-second sleep, on the
    fresh result of [room.GetRemoteParticipants()]. *)
Definition presence_tick (remoteParticipants : list Participant)
  (noParticipantsCount : Z) : tick :=
  if Z.of_nat (length remoteParticipants) =? 0 then
    let noParticipantsCount := wrap64 (noParticipantsCount + 1) in
    if noParticipantsCount >=? 3 then Break
    else Continue noParticipantsCount
  else Continue 0.

(** The loop over the successive snapshots.  [taken] is the number of
    samples already taken; the result is the (1-based) sample at which
    the loop breaks, or [None] while the program is still polling when
    the given snapshots are exhausted. *)
Fixpoint presence_loop (snapshots : list (list Participant))
  (noParticipantsCount : Z) (taken : nat) : option nat :=
  match snapshots with
  | [] => None
  | s :: rest =>
      match presence_tick s noParticipantsCount with
      | Break => Some (S taken)
      | Continue c => presence_loop rest c (S taken)
      end
  end.

(** [noParticipantsCount := 0] followed by the loop. *)
Definition shutdown_sample (snapshots : list (list Participant)) : option nat :=
  presence_loop snapshots 0 0%nat.

(** The spec's counter: the number of consecutive empty snapshots at the
    end of a sequence of samples. *)
Definition is_empty (s : list Participant) : bool :=
  match s with [] => true | _ => false end.

Fixpoint leading_empties (l : list (list Participant)) : nat :=
  match l with
  | s :: rest => if is_empty s then S (leading_empties rest) else 0%nat
  | [] => 0%nat
  end.

Definition trailing_empties (l : list (list Participant)) : nat :=
  leading_empties (rev l).

(** ** Bytes and the dimension header ([stream.go], lines 129-139) *)

Definition byte := Byte.byte.

Definition byte_val (b : byte) : Z := Z.of_N (Byte.to_N b).

(** Arithmetic on [uint32] is modulo 2^32. *)
Definition u32 (z : Z) : Z := z mod 2 ^ 32.

(** [binary.LittleEndian.Uint32]:
    [uint32(b[0]) | uint32(b[1])<<8 | uint32(b[2])<<16 | uint32(b[3])<<24]. *)
Definition LittleEndian_Uint32 (b0 b1 b2 b3 : byte) : Z :=
  Z.lor (Z.lor (Z.lor (byte_val b0)
                      (u32 (Z.shiftl (byte_val b1) 8)))
               (u32 (Z.shiftl (byte_val b2) 16)))
        (u32 (Z.shiftl (byte_val b3) 24)).

(** The spec's reading of a 4-byte group: the little-endian positional
    value, least significant byte first. *)
Definition le_value (b0 b1 b2 b3 : byte) : Z :=
  byte_val b0 + 256 * byte_val b1 + 65536 * byte_val b2
  + 16777216 * byte_val b3.

Inductive error :=
| EOF
| ErrUnexpectedEOF
| ErrOther (msg : string).

(** A raw channel is the sequence of bytes it delivers before it is
    closed.  [binary.Read(r, binary.LittleEndian, &x)] for [x : uint32]
    is [io.ReadFull] of 4 bytes followed by the decode; it consumes the
    4 bytes and leaves the rest of the channel, or fails with [EOF] (no
    byte left) or [ErrUnexpectedEOF] (1 to 3 bytes left). *)
Definition binary_Read_uint32 (r : list byte) : (Z * list byte) + error :=
  match r with
  | b0 :: b1 :: b2 :: b3 :: rest => inl (LittleEndian_Uint32 b0 b1 b2 b3, rest)
  | [] => inr EOF
  | _ => inr ErrUnexpectedEOF
  end.

(** ** Output lines *)

Inductive kind := Video | Audio.

(** One constructor per [Printf] format string of the two programs,
    carrying the formatted arguments. *)
Inductive line :=
| FoundStartCode (name : string) (offset chunk : Z)
| ReadBytes (name : string) (n : Z)
| VideoFirstFrame (now : Time) (sinceStart : Duration) (bytesRead : Z)
| VideoFrameStats (frame : Z) (encodeTime avg min max : Duration) (bytesRead : Z)
| AudioFirstFrame (now : Time) (delay : Duration) (bytesRead : Z)
| AudioProcessed (frames : Z) (sinceStart : Duration) (bytesRead : Z)
| FinalStatsVideo (frames : Z) (avg min max : Duration)
| FinalStatsAudio (frames : Z)
| ReceivedDimensions (width height : Z)
| CreatedPipe (path : string)
| PipesOpened
| NoRemoteParticipants.

(** ** The timing variables of [main] and the two completion callbacks *)

(** The variables declared under "Variables for timing" (and
    [audioFrameCount]), which both closures capture by reference. *)
Record Vars := mkVars {
  frameCount : Z;
  lastFrameTime : Time;
  totalEncodeTime : Duration;
  maxEncodeTime : Duration;
  minEncodeTime : Duration;
  startTime : Time;
  firstVideoFrame : bool;
  firstAudioFrame : bool;
  videoBytesRead : Z;
  audioBytesRead : Z;
  audioFrameCount : Z
}.

(** The values at their declarations: Go zero values, except
    [minEncodeTime = time.Hour]. *)
Definition initVars : Vars :=
  mkVars 0 zeroTime 0 0 Hour zeroTime false false 0 0 0.

Definition set_frameCount (x : Z) (v : Vars) : Vars :=
  mkVars x (lastFrameTime v) (totalEncodeTime v) (maxEncodeTime v)
    (minEncodeTime v) (startTime v) (firstVideoFrame v) (firstAudioFrame v)
    (videoBytesRead v) (audioBytesRead v) (audioFrameCount v).
Definition set_lastFrameTime (x : Time) (v : Vars) : Vars :=
  mkVars (frameCount v) x (totalEncodeTime v) (maxEncodeTime v)
    (minEncodeTime v) (startTime v) (firstVideoFrame v) (firstAudioFrame v)
    (videoBytesRead v) (audioBytesRead v) (audioFrameCount v).
Definition set_totalEncodeTime (x : Duration) (v : Vars) : Vars :=
  mkVars (frameCount v) (lastFrameTime v) x (maxEncodeTime v)
    (minEncodeTime v) (startTime v) (firstVideoFrame v) (firstAudioFrame v)
    (videoBytesRead v) (audioBytesRead v) (audioFrameCount v).
Definition set_maxEncodeTime (x : Duration) (v : Vars) : Vars :=
  mkVars (frameCount v) (lastFrameTime v) (totalEncodeTime v) x
    (minEncodeTime v) (startTime v) (firstVideoFrame v) (firstAudioFrame v)
    (videoBytesRead v) (audioBytesRead v) (audioFrameCount v).
Definition set_minEncodeTime (x : Duration) (v : Vars) : Vars :=
  mkVars (frameCount v) (lastFrameTime v) (totalEncodeTime v)
    (maxEncodeTime v) x (startTime v) (firstVideoFrame v) (firstAudioFrame v)
    (videoBytesRead v) (audioBytesRead v) (audioFrameCount v).
Definition set_startTime (x : Time) (v : Vars) : Vars :=
  mkVars (frameCount v) (lastFrameTime v) (totalEncodeTime v)
    (maxEncodeTime v) (minEncodeTime v) x (firstVideoFrame v)
    (firstAudioFrame v) (videoBytesRead v) (audioBytesRead v)
    (audioFrameCount v).
Definition set_firstVideoFrame (x : bool) (v : Vars) : Vars :=
  mkVars (frameCount v) (lastFrameTime v) (totalEncodeTime v)
    (maxEncodeTime v) (minEncodeTime v) (startTime v) x (firstAudioFrame v)
    (videoBytesRead v) (audioBytesRead v) (audioFrameCount v).
Definition set_firstAudioFrame (x : bool) (v : Vars) : Vars :=
  mkVars (frameCount v) (lastFrameTime v) (totalEncodeTime v)
    (maxEncodeTime v) (minEncodeTime v) (startTime v) (firstVideoFrame v) x
    (videoBytesRead v) (audioBytesRead v) (audioFrameCount v).
Definition set_audioFrameCount (x : Z) (v : Vars) : Vars :=
  mkVars (frameCount v) (lastFrameTime v) (totalEncodeTime v)
    (maxEncodeTime v) (minEncodeTime v) (startTime v) (firstVideoFrame v)
    (firstAudioFrame v) (videoBytesRead v) (audioBytesRead v) x.

(** Go's integer division and remainder on [int64]: truncation toward
    zero, a run-time panic on a zero divisor ([None]). *)
Definition div64 (a b : Z) : option Z :=
  if b =? 0 then None else Some (wrap64 (Z.quot a b)).

Definition rem64 (a b : Z) : Z := Z.rem a b.

(** The [ReaderTrackWithOnWriteComplete] closure of the video track,
    called with the value [time.Now()] returns.  The result is [None]
    when the call panics. *)
Definition videoOnWriteComplete (now : Time) (v : Vars)
  : option (Vars * list line) :=
  let r :=
    if negb (firstVideoFrame v) then
      let v := set_startTime now v in
      let v := set_firstVideoFrame true v in
      Some (v, [VideoFirstFrame now (Sub now (startTime v)) (videoBytesRead v)])
    else
      let encodeTime := Sub now (lastFrameTime v) in
      let v := set_totalEncodeTime (wrap64 (totalEncodeTime v + encodeTime)) v in
      let v := set_frameCount (wrap64 (frameCount v + 1)) v in
      let v := if encodeTime >? maxEncodeTime v
               then set_maxEncodeTime encodeTime v else v in
      let v := if encodeTime <? minEncodeTime v
               then set_minEncodeTime encodeTime v else v in
      if rem64 (frameCount v) 100 =? 0 then
        match div64 (totalEncodeTime v) (frameCount v) with
        | Some avgEncodeTime =>
            Some (v, [VideoFrameStats (frameCount v) encodeTime avgEncodeTime
                        (minEncodeTime v) (maxEncodeTime v) (videoBytesRead v)])
        | None => None
        end
      else Some (v, [])
  in
  match r with
  | Some (v, out) => Some (set_lastFrameTime now v, out)
  | None => None
  end.

(** The closure of the audio track. *)
Definition audioOnWriteComplete (now : Time) (v : Vars)
  : option (Vars * list line) :=
  if negb (firstAudioFrame v) then
    let v := set_firstAudioFrame true v in
    Some (v, [AudioFirstFrame now (Sub now (startTime v)) (audioBytesRead v)])
  else
    let v := set_audioFrameCount (wrap64 (audioFrameCount v + 1)) v in
    if rem64 (audioFrameCount v) 500 =? 0 then
      Some (v, [AudioProcessed (audioFrameCount v) (Sub now (startTime v))
                  (audioBytesRead v)])
    else Some (v, []).

(** A completed callback invocation: which track's closure ran and the
    time it read. *)
Definition invocation := (kind * Time)%type.

Definition invoke (i : invocation) (v : Vars) : option (Vars * list line) :=
  match fst i with
  | Video => videoOnWriteComplete (snd i) v
  | Audio => audioOnWriteComplete (snd i) v
  end.

(** The closures run one at a time on the shared variables, in the order
    in which the two publishers complete their writes.  Every emitted
    line is tagged with the closure that printed it. *)
Fixpoint run_callbacks (calls : list invocation) (v : Vars)
  : option (Vars * list (kind * line)) :=
  match calls with
  | [] => Some (v, [])
  | i :: rest =>
      match invoke i v with
      | None => None
      | Some (v', out) =>
          match run_callbacks rest v' with
          | None => None
          | Some (v'', outs) => Some (v'', map (pair (fst i)) out ++ outs)
          end
      end
  end.

(** Only the video closure, on successive readings of the clock. *)
Definition run_video (ts : list Time) (v : Vars) :=
  run_callbacks (map (pair Video) ts) v.

Definition run_audio (ts : list Time) (v : Vars) :=
  run_callbacks (map (pair Audio) ts) v.

(** ** The diagnostic readers *)

(** [p[i]]: indexing outside the slice panics ([None]). *)
Definition index (p : list byte) (i : Z) : option byte :=
  if i <? 0 then None else nth_error p (Z.to_nat i).

Definition byte_is (p : list byte) (i c : Z) : option bool :=
  option_map (fun b => byte_val b =? c) (index p i).

(** [&&] and [||] evaluate their right operand only when needed, so an
    operand that would panic is harmless when it is skipped. *)
Definition and_then (a b : option bool) : option bool :=
  match a with
  | Some true => b
  | Some false => Some false
  | None => None
  end.

Definition or_else (a b : option bool) : option bool :=
  match a with
  | Some true => Some true
  | Some false => b
  | None => None
  end.

(** The condition of the [if] inside the scanning loop. *)
Definition start_code_at (p : list byte) (i : Z) : option bool :=
  or_else
    (and_then (byte_is p i 0)
       (and_then (byte_is p (i + 1) 0)
          (and_then (byte_is p (i + 2) 0) (byte_is p (i + 3) 1))))
    (and_then (byte_is p i 0)
       (and_then (byte_is p (i + 1) 0) (byte_is p (i + 2) 1))).

(** [for i := 0; i < n-4; i++ { ... }] with [iters] iterations left,
    from loop variable [i] and local [start]. *)
Fixpoint scan_loop (name : string) (p : list byte) (iters : nat)
  (i start : Z) : option (list line) :=
  match iters with
  | O => Some []
  | S iters' =>
      match start_code_at p i with
      | None => None
      | Some true =>
          let found :=
            if start <? i then [FoundStartCode name i (i - start)] else [] in
          option_map (app found) (scan_loop name p iters' (i + 1) i)
      | Some false => scan_loop name p iters' (i + 1) start
      end
  end.

(** The body of [if n > 0 { ... }] up to the final [Printf]: the loop
    runs for [i = 0, ..., n-5]. *)
Definition scan (name : string) (p : list byte) (n : Z) : option (list line) :=
  scan_loop name p (Z.to_nat (n - 4)) 0 0.

(** The result of one [Read(p)] call: the reader afterwards, the
    contents of [p] afterwards, the returned count and error, and what
    the call printed. *)
Record ReadResult (R : Type) := mkRead {
  rr_reader : R;
  rr_p : list byte;
  rr_n : Z;
  rr_err : option error;
  rr_out : list line
}.
Arguments mkRead {R}.
Arguments rr_reader {R}.
Arguments rr_p {R}.
Arguments rr_n {R}.
Arguments rr_err {R}.
Arguments rr_out {R}.

(** [io.ReadCloser].  [Read] is [None] when the call panics. *)
Class ReadCloser (R : Type) := {
  Read : R -> list byte -> option (ReadResult R);
  Close : R -> R * option error
}.

(** The contract of [io.Reader] on a result: [0 <= n <= len(p)]. *)
Definition reader_contract {R} (r : ReadResult R) : Prop :=
  0 <= rr_n r <= Z.of_nat (length (rr_p r)).

Record H264Reader (R : Type) := mkH264Reader {
  h_reader : R;
  h_name : string;
  h_buffer : list byte
}.
Arguments mkH264Reader {R}.
Arguments h_reader {R}.
Arguments h_name {R}.
Arguments h_buffer {R}.

(** What [H264Reader.Read] prints for a buffer [p] and a count [n]. *)
Definition scan_output (name : string) (p : list byte) (n : Z)
  : option (list line) :=
  if n >? 0 then
    option_map (fun found => found ++ [ReadBytes name n]) (scan name p n)
  else Some [].

(** [func (h *H264Reader) Read(p []byte) (n int, err error)], identical
    in both files. *)
Definition H264Reader_Read {R} `{ReadCloser R} (h : H264Reader R)
  (p : list byte) : option (ReadResult (H264Reader R)) :=
  match Read (h_reader h) p with
  | None => None
  | Some r =>
      match scan_output (h_name h) (rr_p r) (rr_n r) with
      | None => None
      | Some printed =>
          Some (mkRead (mkH264Reader (rr_reader r) (h_name h) (h_buffer h))
                  (rr_p r) (rr_n r) (rr_err r) (rr_out r ++ printed))
      end
  end.

Definition H264Reader_Close {R} `{ReadCloser R} (h : H264Reader R)
  : H264Reader R * option error :=
  let (r, e) := Close (h_reader h) in
  (mkH264Reader r (h_name h) (h_buffer h), e).

#[export] Instance H264Reader_ReadCloser {R} `{ReadCloser R}
  : ReadCloser (H264Reader R) :=
  {| Read := H264Reader_Read; Close := H264Reader_Close |}.

Record DebugReader (R : Type) := mkDebugReader {
  d_reader : R;
  d_name : string
}.
Arguments mkDebugReader {R}.
Arguments d_reader {R}.
Arguments d_name {R}.

(** [DebugReader.Read]: the [Printf] is commented out in [stream.go]
    ([verbose = false]) and active in [stream-file.go]. *)
Definition DebugReader_Read (verbose : bool) {R} `{ReadCloser R}
  (d : DebugReader R) (p : list byte) : option (ReadResult (DebugReader R)) :=
  match Read (d_reader d) p with
  | None => None
  | Some r =>
      let printed :=
        if (rr_n r >? 0) && verbose then [ReadBytes (d_name d) (rr_n r)]
        else [] in
      Some (mkRead (mkDebugReader (rr_reader r) (d_name d))
              (rr_p r) (rr_n r) (rr_err r) (rr_out r ++ printed))
  end.

(** A reader over a fixed byte sequence, as a pipe delivers it: each
    call copies as many pending bytes as fit into [p]; at the end of the
    data it returns [0, EOF]. *)
Definition pipe_Read (pending p : list byte) : option (ReadResult (list byte)) :=
  match pending with
  | [] => Some (mkRead [] p 0 (Some EOF) [])
  | _ =>
      let k := Nat.min (length pending) (length p) in
      Some (mkRead (skipn k pending) (firstn k pending ++ skipn k p)
              (Z.of_nat k) None [])
  end.

#[export] Instance pipe_ReadCloser : ReadCloser (list byte) :=
  {| Read := pipe_Read; Close := fun _ => ([], None) |}.

(** ** [main]: effects as a trace *)

(** The calls of [main] that can fail. *)
Inductive op :=
| OpLoadEnv
| OpMkfifo (k : kind)
| OpOpenFile (k : kind)
| OpConnectToRoom
| OpStdoutPipe (k : kind)
| OpStart (k : kind)
| OpNewLocalReaderTrack (k : kind)
| OpPublishTrack (k : kind).

Inductive event :=
| Printf (l : line)
| Fatal (msg : string) (err : option error)
| Panic (err : error)
| LoadEnv
| Remove (k : kind)
| Mkfifo (k : kind)
| OpenFile (k : kind)
| ConnectToRoom
| EncoderInput (k : kind) (remaining : list byte)
| StdoutPipe (k : kind)
| Start (k : kind) (size : option (Z * Z))
| NewLocalReaderTrack (k : kind) (frameDuration : Duration)
| PublishTrack (k : kind) (dims : option (Z * Z))
| Sleep (d : Duration)
| Kill (k : kind)
| Disconnect
| ClosePipe (k : kind).

(** How a run of [main] stands: it went on with a value, the process
    exited ([log.Fatal] calls [os.Exit(1)]), [main] itself panicked, or
    it is still polling. *)
Inductive outcome (A : Type) :=
| Done (a : A)
| Exit (code : Z)
| Panicked
| Polling.
Arguments Done {A}.
Arguments Exit {A}.
Arguments Panicked {A}.
Arguments Polling {A}.

Definition M (A : Type) : Type := (list event * outcome A)%type.

Definition ret {A} (a : A) : M A := ([], Done a).

Definition bind {A B} (m : M A) (f : A -> M B) : M B :=
  match m with
  | (t, Done a) => let (t', o) := f a in (t ++ t', o)
  | (t, Exit c) => (t, Exit c)
  | (t, Panicked) => (t, Panicked)
  | (t, Polling) => (t, Polling)
  end.

Notation "x <- m ;; k" := (bind m (fun x => k))
  (at level 61, m at next level, right associativity).
Notation "m ;; k" := (bind m (fun _ => k))
  (at level 61, right associativity).

Definition emit (e : event) : M unit := ([e], Done tt).
Definition log_Fatal {A} (msg : string) (err : option error) : M A :=
  ([Fatal msg err], Exit 1).
Definition panic {A} (err : error) : M A := ([Panic err], Panicked).

Definition trace {A} (m : M A) : list event := fst m.
Definition result {A} (m : M A) : outcome A := snd m.

(** What the outside world does during one run. *)
Record World := mkWorld {
  args : list string;                    (* os.Args *)
  failure : op -> option error;          (* which calls fail, and how *)
  videoPipe : list byte;                 (* bytes on /tmp/video_pipe.yuv *)
  audioPipe : list byte;                 (* bytes on /tmp/audio_pipe.raw *)
  calls : list invocation;               (* callbacks completed before the
                                            final statistics are read *)
  snapshots : list (list Participant)    (* successive peer sets *)
}.

(** A call followed by [if err != nil { log.Fatal(msg, err) }]. *)
Definition try (w : World) (o : op) (done : event) (msg : string) : M unit :=
  match failure w o with
  | None => emit done
  | Some e => log_Fatal msg (Some e)
  end.

(** A call followed by [if err != nil { log.Fatal(msg) }]: the error
    itself is not printed. *)
Definition try_quiet (w : World) (o : op) (done : event) (msg : string)
  : M unit :=
  match failure w o with
  | None => emit done
  | Some _ => log_Fatal msg None
  end.

(** The timing variables as [main] reads them once the callbacks in
    [calls] have run.  The callbacks run on the publishers' goroutines:
    a panic there ends the process with status 2, and the deferred calls
    of [main] do not run. *)
Definition observe_vars (w : World) : M Vars :=
  match run_callbacks (calls w) initVars with
  | Some (v, _) => ret v
  | None => ([Panic (ErrOther "integer divide by zero"%string)], Exit 2)
  end.

(** "Printf final stats", the same lines in both files. *)
Definition final_stats (v : Vars) : M unit :=
  (if frameCount v >? 0 then
     match div64 (totalEncodeTime v) (frameCount v) with
     | Some avgEncodeTime =>
         emit (Printf (FinalStatsVideo (frameCount v) avgEncodeTime
                        (minEncodeTime v) (maxEncodeTime v)))
     | None => panic (ErrOther "integer divide by zero"%string)
     end
   else ret tt) ;;
  emit (Printf (FinalStatsAudio (audioFrameCount v))).

(** "Clean up", the same lines in both files. *)
Definition clean_up : M unit :=
  emit (Kill Video) ;;
  emit (Kill Audio) ;;
  emit Disconnect.

Definition teardown (w : World) : M unit :=
  v <- observe_vars w ;;
  final_stats v ;;
  clean_up.

Module Live.
(** [stream.go] *)

(** Up to "Pipes opened successfully". *)
Definition open_pipes (w : World) : M unit :=
  (if (length (args w) <? 2)%nat
   then log_Fatal "Please provide a room name as argument"%string None
   else ret tt) ;;
  try_quiet w OpLoadEnv LoadEnv "Error loading .env.local file"%string ;;
  emit (Remove Video) ;;
  emit (Remove Audio) ;;
  try w (OpMkfifo Video) (Mkfifo Video) "Error creating video pipe:"%string ;;
  try w (OpMkfifo Audio) (Mkfifo Audio) "Error creating audio pipe:"%string ;;
  emit (Printf (CreatedPipe "/tmp/video_pipe.yuv"%string)) ;;
  emit (Printf (CreatedPipe "/tmp/audio_pipe.raw"%string)) ;;
  try w (OpOpenFile Video) (OpenFile Video) "Error opening video pipe:"%string ;;
  try w (OpOpenFile Audio) (OpenFile Audio) "Error opening audio pipe:"%string ;;
  emit (Printf PipesOpened).

(** "Read frame dimensions from video pipe": the two [binary.Read]
    calls and the log line.  The result is the width, the height and
    what is left on the pipe. *)
Definition read_dimensions (pipe : list byte) : M (Z * Z * list byte) :=
  match binary_Read_uint32 pipe with
  | inr e => log_Fatal "Error reading frame width:"%string (Some e)
  | inl (frameWidth, pipe) =>
      match binary_Read_uint32 pipe with
      | inr e => log_Fatal "Error reading frame height:"%string (Some e)
      | inl (frameHeight, pipe) =>
          emit (Printf (ReceivedDimensions frameWidth frameHeight)) ;;
          ret (frameWidth, frameHeight, pipe)
      end
  end.

(** From [ConnectToRoom] to the second [PublishTrack]. *)
Definition start_pipeline (w : World) (frameWidth frameHeight : Z)
  (pipe : list byte) : M unit :=
  match failure w OpConnectToRoom with
  | None => emit ConnectToRoom
  | Some e => panic e
  end ;;
  emit (EncoderInput Video pipe) ;;
  emit (EncoderInput Audio (audioPipe w)) ;;
  try w (OpStdoutPipe Video) (StdoutPipe Video) "Error creating video pipe:"%string ;;
  try w (OpStdoutPipe Audio) (StdoutPipe Audio) "Error creating audio pipe:"%string ;;
  try w (OpStart Video) (Start Video (Some (frameWidth, frameHeight)))
    "Error starting video ffmpeg:"%string ;;
  try w (OpStart Audio) (Start Audio None) "Error starting audio ffmpeg:"%string ;;
  try w (OpNewLocalReaderTrack Video)
    (NewLocalReaderTrack Video (40 * Millisecond))
    "Error creating video track:"%string ;;
  try w (OpNewLocalReaderTrack Audio)
    (NewLocalReaderTrack Audio (20 * Millisecond))
    "Error creating audio track:"%string ;;
  try w (OpPublishTrack Audio) (PublishTrack Audio None)
    "Error publishing audio track:"%string ;;
  try w (OpPublishTrack Video)
    (PublishTrack Video (Some (frameWidth, frameHeight)))
    "Error publishing video track:"%string.

(** "exit when none are found for 3 seconds": one [Sleep] per sample
    taken, then the log line if the loop was left. *)
Definition monitor (w : World) : M unit :=
  match shutdown_sample (snapshots w) with
  | Some k => (repeat (Sleep Second) k, Done tt) ;;
              emit (Printf NoRemoteParticipants)
  | None => (repeat (Sleep Second) (length (snapshots w)), Polling)
  end.

Definition main_body (w : World) : M unit :=
  open_pipes w ;;
  d <- read_dimensions (videoPipe w) ;;
  let '(frameWidth, frameHeight, pipe) := d in
  start_pipeline w frameWidth frameHeight pipe ;;
  monitor w ;;
  teardown w.

(** The deferred [Close] calls run, last first, when [main] returns or
    panics; they do not run after [os.Exit]. *)
Definition deferred (t : list event) : list event :=
  (if existsb (fun e => match e with OpenFile Audio => true | _ => false end) t
   then [ClosePipe Audio] else [])
  ++
  (if existsb (fun e => match e with OpenFile Video => true | _ => false end) t
   then [ClosePipe Video] else []).

Definition main (w : World) : M unit :=
  match main_body w with
  | (t, Done a) => (t ++ deferred t, Done a)
  | (t, Panicked) => (t ++ deferred t, Panicked)
  | r => r
  end.

End Live.

Module File.
(** [stream-file.go] *)

Definition start_pipeline (w : World) : M unit :=
  try_quiet w OpLoadEnv LoadEnv "Error loading .env.local file"%string ;;
  match failure w OpConnectToRoom with
  | None => emit ConnectToRoom
  | Some e => panic e
  end ;;
  try w (OpStdoutPipe Video) (StdoutPipe Video) "Error creating video pipe:"%string ;;
  try w (OpStdoutPipe Audio) (StdoutPipe Audio) "Error creating audio pipe:"%string ;;
  try w (OpStart Video) (Start Video (Some (512, 512))) "Error starting video ffmpeg:"%string ;;
  try w (OpStart Audio) (Start Audio None) "Error starting audio ffmpeg:"%string ;;
  try w (OpNewLocalReaderTrack Video)
    (NewLocalReaderTrack Video (40 * Millisecond))
    "Error creating video track:"%string ;;
  try w (OpNewLocalReaderTrack Audio)
    (NewLocalReaderTrack Audio (20 * Millisecond))
    "Error creating audio track:"%string ;;
  try w (OpPublishTrack Video) (PublishTrack Video (Some (512, 512)))
    "Error publishing video track:"%string ;;
  try w (OpPublishTrack Audio) (PublishTrack Audio None)
    "Error publishing audio track:"%string.

Definition main (w : World) : M unit :=
  start_pipeline w ;;
  emit (Sleep (60 * Second)) ;;
  teardown w.

End File.

(** * Specification vocabulary *)

(** [k] is the first sample at which the run of consecutive empty
    snapshots reaches 3. *)
Definition first_third_empty (l : list (list Participant)) (k : nat) : Prop :=
  (1 <= k <= length l)%nat
  /\ trailing_empties (firstn k l) = 3%nat
  /\ forall j, (j < k)%nat -> (trailing_empties (firstn j l) < 3)%nat.

(** The loop invariant: [c] is the length of the run of empty snapshots
    that ends the samples taken so far, and no earlier sample reached 3. *)
Definition counting (pre : list (list Participant)) (c : nat) : Prop :=
  trailing_empties pre = c
  /\ forall j, (j <= length pre)%nat -> (trailing_empties (firstn j pre) < 3)%nat.

(** Events of the start-up sequence: nothing is fed to an encoder and
    nothing is published. *)
Definition startup_only (e : event) : Prop :=
  match e with
  | EncoderInput _ _ | PublishTrack _ _ | Start _ _ => False
  | _ => True
  end.

(** The video encoder gets exactly [rest] and the geometry [dims]. *)
Definition video_from (rest : list byte) (dims : Z * Z) (e : event) : Prop :=
  match e with
  | EncoderInput Video d => d = rest
  | Start Video sz => sz = Some dims
  | PublishTrack Video d => d = Some dims
  | _ => True
  end.

Ltac branch_on_failures :=
  repeat match goal with
    | |- context [failure ?w ?o] => destruct (failure w o); simpl
    end.

(** The run ended in [log.Fatal]. *)
Definition ends_fatal (t : list event) : Prop :=
  match rev t with
  | Fatal _ _ :: _ => True
  | _ => False
  end.

(** The monotonic clock reading of a timestamp. *)
Definition reading (t : Time) : Z :=
  match mono t with Some m => m | None => 0 end.

(** The inter-invocation intervals, as exact differences of successive
    clock readings, starting after the invocation at [prev]. *)
Fixpoint intervals (prev : Time) (ts : list Time) : list Z :=
  match ts with
  | [] => []
  | t :: rest => (reading t - reading prev) :: intervals t rest
  end.

Definition sum (l : list Z) : Z := fold_right Z.add 0 l.

(** The periodic line of the video closure for the state it has built. *)
Definition video_periodic (encodeTime : Duration) (v : Vars) : list line :=
  if rem64 (frameCount v) 100 =? 0 then
    [VideoFrameStats (frameCount v) encodeTime
       (wrap64 (Z.quot (totalEncodeTime v) (frameCount v)))
       (minEncodeTime v) (maxEncodeTime v) (videoBytesRead v)]
  else [].

(** The intervals between the successive invocations of a closure. *)
Definition observed_intervals (ts : list Time) : list Z :=
  match ts with
  | [] => []
  | t0 :: rest => intervals t0 rest
  end.

(** [pat] is a prefix of [q], byte by byte. *)
Fixpoint matches (pat : list Z) (q : list byte) : bool :=
  match pat, q with
  | [], _ => true
  | c :: pat', b :: q' => (byte_val b =? c) && matches pat' q'
  | _ :: _, [] => false
  end.

(** One of the two start codes, 00 00 00 01 or 00 00 01, starts at
    offset [i] and lies entirely within the first [n] bytes of [p]. *)
Definition occurs_at (p : list byte) (n i : Z) : bool :=
  (0 <=? i)
  && (matches [0; 0; 0; 1] (skipn (Z.to_nat i) (firstn (Z.to_nat n) p))
      || matches [0; 0; 1] (skipn (Z.to_nat i) (firstn (Z.to_nat n) p))).

(** The offset of the last start code before offset [k], 0 when there
    is none: what the loop keeps in [start]. *)
Fixpoint last_start (p : list byte) (n : Z) (k : nat) : Z :=
  match k with
  | O => 0
  | S k' => if occurs_at p n (Z.of_nat k') then Z.of_nat k'
            else last_start p n k'
  end.

(** The line due for offset [k]. *)
Definition report (name : string) (p : list byte) (n : Z) (k : nat) : list line :=
  if occurs_at p n (Z.of_nat k) && (0 <? Z.of_nat k) then
    [FoundStartCode name (Z.of_nat k) (Z.of_nat k - last_start p n k)]
  else [].

(** The claim as the spec words it: every start code within the buffer
    is reported at its offset. *)
Definition reports_every_start_code : Prop :=
  forall name p n found,
    0 < n <= Z.of_nat (length p) ->
    scan name p n = Some found ->
    forall i, occurs_at p n i = true ->
              exists chunk, In (FoundStartCode name i chunk) found.

(** The variables the video closure reads or writes, and those of the
    audio closure. *)
Definition video_part (v : Vars) :=
  (frameCount v, lastFrameTime v, totalEncodeTime v, maxEncodeTime v,
   minEncodeTime v, startTime v, firstVideoFrame v, videoBytesRead v).

Definition audio_part (v : Vars) :=
  (firstAudioFrame v, audioFrameCount v, audioBytesRead v).

(** The invocation times of one closure within an interleaving, and the
    lines one closure printed. *)
Definition kind_eqb (a b : kind) : bool :=
  match a, b with
  | Video, Video | Audio, Audio => true
  | _, _ => false
  end.

Definition times (k : kind) (calls : list invocation) : list Time :=
  map snd (filter (fun i => kind_eqb (fst i) k) calls).

Definition lines_of (k : kind) (out : list (kind * line)) : list line :=
  map snd (filter (fun l => kind_eqb (fst l) k) out).

(** An audio line with the "since video start" duration blanked. *)
Definition without_delay (l : line) : line :=
  match l with
  | AudioFirstFrame now _ b => AudioFirstFrame now 0 b
  | AudioProcessed n _ b => AudioProcessed n 0 b
  | other => other
  end.

(** The claim as the spec words it, for the audio closure: what it
    prints does not depend on the invocations of the video closure. *)
Definition audio_output_independent : Prop :=
  forall calls1 calls2 v1 o1 v2 o2,
    run_callbacks calls1 initVars = Some (v1, o1) ->
    run_callbacks calls2 initVars = Some (v2, o2) ->
    times Audio calls1 = times Audio calls2 ->
    lines_of Audio o1 = lines_of Audio o2.

(** What the [n]-th invocation (counting from 1) of the closure of
    track [k] prints, when that closure is invoked at the times [ts]. *)
Definition nth_output (k : kind) (ts : list Time) (n : nat)
  : option (list line) :=
  match n with
  | O => None
  | S m =>
      match run_callbacks (map (pair k) (firstn m ts)) initVars,
            nth_error ts m with
      | Some (v, _), Some now => option_map snd (invoke (k, now) v)
      | _, _ => None
      end
  end.





(** The lines "Print final stats" writes for given variables. *)
Definition final_lines (v : Vars) : list line :=
  (if frameCount v >? 0 then
     [FinalStatsVideo (frameCount v)
        (wrap64 (Z.quot (totalEncodeTime v) (frameCount v)))
        (minEncodeTime v) (maxEncodeTime v)]
   else [])
  ++ [FinalStatsAudio (audioFrameCount v)].

(** Events that belong to the running bridge, not to its teardown. *)
Definition running (e : event) : Prop :=
  match e with
  | Kill _ | Disconnect
  | Printf (FinalStatsVideo _ _ _ _) | Printf (FinalStatsAudio _) => False
  | _ => True
  end.

(** Three consecutive empty snapshots occur somewhere in the samples. *)
Definition three_empties_in (snaps : list (list Participant)) : Prop :=
  exists pre post, snaps = pre ++ [[]; []; []] ++ post.

(** Events of the teardown and of the deferred closes. *)
Definition no_cleanup (e : event) : Prop :=
  match e with
  | Kill _ | Disconnect | ClosePipe _ => False
  | _ => True
  end.

(** A step of [main] that cleans nothing up and, when it exits with
    status 1, does so through [log.Fatal]. *)
Definition fatal_step {A} (m : M A) : Prop :=
  Forall no_cleanup (trace m)
  /\ (result m = Exit 1 -> ends_fatal (trace m)).

(** A run that exits with status 1 ends in [log.Fatal] and has cleaned
    nothing up. *)
Definition fatal_exit {A} (m : M A) : Prop :=
  result m = Exit 1 ->
  ends_fatal (trace m) /\ Forall no_cleanup (trace m).

(** Every [PublishTrack] of a trace comes after [ConnectToRoom] and
    after the [Start] of both encoders; the three flags say which of
    these have been seen. *)
Fixpoint publishes_after_start (connected video audio : bool)
  (t : list event) : bool :=
  match t with
  | [] => true
  | ConnectToRoom :: t' => publishes_after_start true video audio t'
  | Start Video _ :: t' => publishes_after_start connected true audio t'
  | Start Audio _ :: t' => publishes_after_start connected video true t'
  | PublishTrack _ _ :: t' =>
      connected && video && audio
      && publishes_after_start connected video audio t'
  | _ :: t' => publishes_after_start connected video audio t'
  end.

(** Events that neither connect, start an encoder nor publish. *)
Definition no_session_event (e : event) : Prop :=
  match e with
  | ConnectToRoom | Start _ _ | PublishTrack _ _ => False
  | _ => True
  end.

(** The first and the last element of a list of timestamps. *)
Definition first_time (ts : list Time) : Time := hd zeroTime ts.
Definition last_time (ts : list Time) : Time := last ts zeroTime.

(** The reports of one scan form a chain between [lo] and [hi]: every
    line is a start-code line of this reader, its offset lies strictly
    between the previous offset (at first [lo]) and [hi], and its chunk
    size is the distance to the previous offset. *)
Fixpoint chained (name : string) (lo hi : Z) (out : list line) : Prop :=
  match out with
  | [] => True
  | FoundStartCode nm i c :: rest =>
      nm = name /\ lo < i < hi /\ c = i - lo /\ chained name i hi rest
  | _ :: _ => False
  end.

Fixpoint report_offsets (out : list line) : list Z :=
  match out with
  | [] => []
  | FoundStartCode _ i _ :: rest => i :: report_offsets rest
  | _ :: rest => report_offsets rest
  end.

Fixpoint chunk_sizes (out : list line) : list Z :=
  match out with
  | [] => []
  | FoundStartCode _ _ c :: rest => c :: chunk_sizes rest
  | _ :: rest => chunk_sizes rest
  end.

(** [DebugReader.Close], identical in both files. *)
Definition DebugReader_Close {R} `{ReadCloser R} (d : DebugReader R)
  : DebugReader R * option error :=
  let (r, e) := Close (d_reader d) in
  (mkDebugReader r (d_name d), e).

(** A consumer calling [Read] once per buffer of [bufs], in order, on
    the reader each call leaves behind; it records for each call the
    buffer contents, the count, the error and the lines printed.
    [None] when a call panics. *)
Fixpoint read_calls {R} (read : R -> list byte -> option (ReadResult R))
  (r : R) (bufs : list (list byte))
  : option (R * list (list byte * Z * option error * list line)) :=
  match bufs with
  | [] => Some (r, [])
  | p :: rest =>
      match read r p with
      | None => None
      | Some res =>
          match read_calls read (rr_reader res) rest with
          | None => None
          | Some (r', results) =>
              Some (r', (rr_p res, rr_n res, rr_err res, rr_out res) :: results)
          end
      end
  end.

(** What a [DebugReader] named [name] adds to the record of one call. *)
Definition debug_line (verbose : bool) (name : string)
  (call : list byte * Z * option error * list line)
  : list byte * Z * option error * list line :=
  let '(p, n, err, out) := call in
  (p, n, err,
   out ++ if (n >? 0) && verbose then [ReadBytes name n] else []).

(** The message and error of the fatal exit when only [available] bytes
    (fewer than 8) arrive on the video pipe. *)
Definition header_failure (available : nat) : string * error :=
  match available with
  | 0%nat => ("Error reading frame width:"%string, EOF)
  | 1%nat | 2%nat | 3%nat => ("Error reading frame width:"%string, ErrUnexpectedEOF)
  | 4%nat => ("Error reading frame height:"%string, EOF)
  | _ => ("Error reading frame height:"%string, ErrUnexpectedEOF)
  end.

(** What an [H264Reader] named [name] adds to the record of one call:
    the lines due for the start codes of this call's buffer, then the
    "Read n bytes" line. *)
Definition h264_lines (name : string)
  (call : list byte * Z * option error * list line)
  : list byte * Z * option error * list line :=
  let '(p, n, err, out) := call in
  (p, n, err,
   out ++ if n >? 0 then
            flat_map (report name p n) (seq 0 (Z.to_nat (n - 4)))
            ++ [ReadBytes name n]
          else []).

(** The [io.Reader] contract on a recorded call. *)
Definition call_contract (call : list byte * Z * option error * list line)
  : Prop :=
  let '(p, n, _, _) := call in 0 <= n <= Z.of_nat (length p).

(** * Properties *)

(** ** Presence hysteresis *)

Lemma wrap64_small z : in_int64 z -> wrap64 z = z.
Proof.
  unfold in_int64, wrap64. intros H.
  rewrite Z.mod_small by lia. lia.
Qed.

Lemma trailing_empties_snoc l s :
  trailing_empties (l ++ [s])
  = if is_empty s then S (trailing_empties l) else 0%nat.
Proof.
  unfold trailing_empties. rewrite rev_app_distr. reflexivity.
Qed.

Lemma firstn_prefix {A} (pre post : list A) j :
  (j <= length pre)%nat -> firstn j (pre ++ post) = firstn j pre.
Proof.
  intros H. rewrite firstn_app.
  replace (j - length pre)%nat with 0%nat by lia.
  simpl. apply app_nil_r.
Qed.

Lemma firstn_snoc {A} (pre rest : list A) s :
  firstn (S (length pre)) (pre ++ s :: rest) = pre ++ [s].
Proof.
  rewrite firstn_app.
  replace (S (length pre) - length pre)%nat with 1%nat by lia.
  rewrite firstn_all2 by lia. reflexivity.
Qed.

Lemma first_third_empty_unique l k k' :
  first_third_empty l k -> first_third_empty l k' -> k = k'.
Proof.
  intros (_ & Hk & Hlt) (_ & Hk' & Hlt').
  destruct (Nat.lt_trichotomy k k') as [H | [H | H]]; [| assumption |].
  - specialize (Hlt' _ H). lia.
  - specialize (Hlt _ H). lia.
Qed.

Lemma counting_snoc pre c s :
  counting pre c ->
  ((if is_empty s then S c else 0) < 3)%nat ->
  counting (pre ++ [s]) (if is_empty s then S c else 0%nat).
Proof.
  intros [Hc Hpre] Hlt. split.
  - rewrite trailing_empties_snoc, Hc. reflexivity.
  - intros j Hj. rewrite length_app in Hj. simpl in Hj.
    destruct (Nat.eq_dec j (S (length pre))) as [-> | Hne].
    + rewrite firstn_all2 by (rewrite length_app; simpl; lia).
      rewrite trailing_empties_snoc, Hc. exact Hlt.
    + rewrite firstn_prefix by lia. apply Hpre. lia.
Qed.

Lemma presence_loop_counting snaps :
  forall pre c k,
    counting pre c ->
    presence_loop snaps (Z.of_nat c) (length pre) = Some k
    <-> first_third_empty (pre ++ snaps) k.
Proof.
  induction snaps as [| s rest IH]; intros pre c k Hinv.
  - simpl. rewrite app_nil_r. split; [discriminate |].
    intros (Hk & H3 & _). destruct Hinv as [_ Hpre].
    specialize (Hpre k (proj2 Hk)). lia.
  - assert (Hc3 : (c < 3)%nat).
    { destruct Hinv as [Hc Hpre]. specialize (Hpre (length pre) (le_n _)).
      rewrite firstn_all in Hpre. lia. }
    assert (Hshift : (pre ++ [s]) ++ rest = pre ++ s :: rest)
      by (rewrite <- app_assoc; reflexivity).
    assert (Hlen : length (pre ++ [s]) = S (length pre))
      by (rewrite length_app; simpl; lia).
    cbn [presence_loop]. unfold presence_tick.
    destruct s as [| p ps].
    + (* empty snapshot *)
      cbn [length Z.of_nat Z.eqb].
      rewrite wrap64_small by (unfold in_int64; lia).
      destruct (Z.geb_spec (Z.of_nat c + 1) 3) as [Hge | Hlt].
      * (* the third one: break *)
        assert (Hhere : first_third_empty (pre ++ [] :: rest) (S (length pre))).
        { destruct Hinv as [Hc Hpre]. repeat split.
          - lia.
          - rewrite length_app. simpl. lia.
          - rewrite firstn_snoc, trailing_empties_snoc, Hc. simpl. lia.
          - intros j Hj. rewrite firstn_prefix by lia. apply Hpre. lia. }
        split.
        -- intros [= <-]. exact Hhere.
        -- intros Hk. f_equal.
           exact (first_third_empty_unique _ _ _ Hhere Hk).
      * replace (Z.of_nat c + 1) with (Z.of_nat (S c)) by lia.
        rewrite <- Hlen, <- Hshift. apply IH.
        apply (counting_snoc pre c [] Hinv). simpl. lia.
    + (* some participant is present *)
      cbn [length]. rewrite Nat2Z.inj_succ.
      destruct (Z.eqb_spec (Z.succ (Z.of_nat (length ps))) 0) as [Hz | _];
        [lia |].
      rewrite <- Hlen, <- Hshift. apply (IH (pre ++ [p :: ps]) 0%nat).
      apply (counting_snoc pre c (p :: ps) Hinv). simpl. lia.
Qed.

(** C1: shutdown is signalled exactly at the first sample at which the
    run of consecutive empty peer snapshots reaches 3; a non-empty
    snapshot resets the counter to 0; [empty, empty, non-empty, empty,
    empty, empty] shuts down at sample 6 and [non-empty, empty, empty,
    empty] at sample 4. *)
Theorem presence_hysteresis :
  (forall snaps k,
      shutdown_sample snaps = Some k <-> first_third_empty snaps k)
  /\ (forall p ps c, presence_tick (p :: ps) c = Continue 0)
  /\ (forall p q,
         shutdown_sample [[]; []; [p]; []; []; []] = Some 6%nat
         /\ shutdown_sample [[q]; []; []; []] = Some 4%nat).
Proof.
  split; [| split].
  - intros snaps k. unfold shutdown_sample.
    apply (presence_loop_counting snaps [] 0%nat k).
    split; [reflexivity |].
    intros j Hj. simpl in Hj. replace j with 0%nat by lia.
    simpl. unfold trailing_empties. simpl. lia.
  - intros p ps c. unfold presence_tick. cbn [length].
    rewrite Nat2Z.inj_succ.
    destruct (Z.eqb_spec (Z.succ (Z.of_nat (length ps))) 0); [lia | reflexivity].
  - intros p q. split; reflexivity.
Qed.

(** ** The dimension header *)

Lemma byte_val_range b : 0 <= byte_val b < 256.
Proof.
  unfold byte_val. pose proof (Byte.to_N_bounded b). lia.
Qed.

Lemma land_shift_disjoint a b n :
  0 <= n -> 0 <= a < 2 ^ n -> Z.land a (b * 2 ^ n) = 0.
Proof.
  intros Hn Ha. apply Z.bits_inj'. intros m Hm.
  rewrite Z.land_spec, Z.bits_0.
  destruct (Z.lt_ge_cases m n) as [Hlt | Hge].
  - rewrite (Z.mul_pow2_bits_low b n m) by lia. apply andb_false_r.
  - destruct (Z.eq_dec a 0) as [-> | Hne]; [rewrite Z.bits_0; reflexivity |].
    rewrite (Z.bits_above_log2 a m); [reflexivity | lia |].
    apply Z.lt_le_trans with n; [| lia].
    apply Z.log2_lt_pow2; lia.
Qed.

Lemma lor_shift_add a b n :
  0 <= n -> 0 <= a < 2 ^ n -> Z.lor a (b * 2 ^ n) = a + b * 2 ^ n.
Proof.
  intros Hn Ha.
  rewrite <- Z.lxor_lor, <- Z.add_nocarry_lxor;
    auto using land_shift_disjoint.
Qed.

(** The shift-and-or decode of the code is the positional value. *)
Lemma LittleEndian_Uint32_value b0 b1 b2 b3 :
  LittleEndian_Uint32 b0 b1 b2 b3 = le_value b0 b1 b2 b3
  /\ 0 <= le_value b0 b1 b2 b3 < 2 ^ 32.
Proof.
  pose proof (byte_val_range b0). pose proof (byte_val_range b1).
  pose proof (byte_val_range b2). pose proof (byte_val_range b3).
  unfold LittleEndian_Uint32, le_value, u32.
  rewrite !Z.shiftl_mul_pow2 by lia.
  rewrite !Z.mod_small by lia.
  rewrite (lor_shift_add _ _ 8) by lia.
  rewrite (lor_shift_add _ _ 16) by lia.
  rewrite (lor_shift_add _ _ 24) by lia.
  lia.
Qed.

Lemma trace_bind {A B} (m : M A) (f : A -> M B) :
  trace (bind m f)
  = trace m ++ match result m with Done a => trace (f a) | _ => [] end.
Proof.
  destruct m as [t [a | c | |]]; unfold bind, trace, result; simpl;
    try (destruct (f a)); simpl; auto using app_nil_r.
Qed.

Lemma result_bind {A B} (m : M A) (f : A -> M B) :
  result (bind m f)
  = match result m with
    | Done a => result (f a)
    | Exit c => Exit c
    | Panicked => Panicked
    | Polling => Polling
    end.
Proof.
  destruct m as [t [a | c | |]]; unfold bind, result; simpl;
    try (destruct (f a)); reflexivity.
Qed.

Lemma open_pipes_startup w :
  Forall startup_only (trace (Live.open_pipes w))
  /\ (result (Live.open_pipes w) = Done tt
      \/ result (Live.open_pipes w) = Exit 1
         /\ ends_fatal (trace (Live.open_pipes w))).
Proof.
  unfold Live.open_pipes, try, try_quiet.
  destruct (length (args w) <? 2)%nat; simpl.
  - split; [repeat constructor |]. right. split; [reflexivity | exact I].
  - branch_on_failures; (split; [repeat constructor |]);
      try (left; reflexivity);
      right; (split; [reflexivity | exact I]).
Qed.

Lemma Forall_repeat {A} (P : A -> Prop) x n : P x -> Forall P (repeat x n).
Proof. intros H. induction n; simpl; auto. Qed.

Lemma read_dimensions_header b0 b1 b2 b3 b4 b5 b6 b7 rest :
  Live.read_dimensions (b0 :: b1 :: b2 :: b3 :: b4 :: b5 :: b6 :: b7 :: rest)
  = ([Printf (ReceivedDimensions (le_value b0 b1 b2 b3) (le_value b4 b5 b6 b7))],
     Done (le_value b0 b1 b2 b3, le_value b4 b5 b6 b7, rest)).
Proof.
  unfold Live.read_dimensions. simpl.
  rewrite (proj1 (LittleEndian_Uint32_value b0 b1 b2 b3)).
  rewrite (proj1 (LittleEndian_Uint32_value b4 b5 b6 b7)).
  reflexivity.
Qed.

Lemma read_dimensions_short pipe :
  (length pipe < 8)%nat ->
  exists msg e, Live.read_dimensions pipe = ([Fatal msg (Some e)], Exit 1).
Proof.
  intros H. unfold Live.read_dimensions.
  destruct pipe as [| b0 [| b1 [| b2 [| b3 [| b4 [| b5 [| b6 [| b7 rest]]]]]]]];
    simpl; try (do 2 eexists; reflexivity).
  simpl in H. lia.
Qed.

Lemma start_pipeline_video w width height rest :
  Forall (video_from rest (width, height))
    (trace (Live.start_pipeline w width height rest)).
Proof.
  unfold Live.start_pipeline, try.
  branch_on_failures; repeat constructor.
Qed.

Lemma monitor_video w rest dims :
  Forall (video_from rest dims) (trace (Live.monitor w)).
Proof.
  unfold Live.monitor.
  destruct (shutdown_sample (snapshots w)); simpl.
  - apply Forall_app. split; [apply Forall_repeat; exact I | repeat constructor].
  - apply Forall_repeat. exact I.
Qed.

Lemma teardown_video w rest dims :
  Forall (video_from rest dims) (trace (teardown w)).
Proof.
  unfold teardown, observe_vars, final_stats.
  destruct (run_callbacks (calls w) initVars) as [[v out] |]; simpl.
  - destruct (frameCount v >? 0); simpl.
    + destruct (div64 (totalEncodeTime v) (frameCount v)); simpl;
        repeat constructor.
    + repeat constructor.
  - repeat constructor.
Qed.

Lemma deferred_video t rest dims :
  Forall (video_from rest dims) (Live.deferred t).
Proof.
  unfold Live.deferred.
  do 2 match goal with |- context [existsb ?f t] => destruct (existsb f t) end;
    repeat constructor.
Qed.

Lemma live_main_trace w :
  exists closes,
    trace (Live.main w) = trace (Live.main_body w) ++ closes
    /\ (closes = [] \/ closes = Live.deferred (trace (Live.main_body w)))
    /\ result (Live.main w) = result (Live.main_body w).
Proof.
  unfold Live.main.
  destruct (Live.main_body w) as [t [[] | c | |]]; simpl;
    eauto using app_nil_r.
Qed.

Lemma Forall_trace_bind {A B} (P : event -> Prop) (m : M A) (f : A -> M B) :
  Forall P (trace m) -> (forall a, Forall P (trace (f a))) ->
  Forall P (trace (bind m f)).
Proof.
  intros Hm Hf. rewrite trace_bind. apply Forall_app. split; [assumption |].
  destruct (result m); auto.
Qed.

Lemma ends_fatal_snoc t msg err : ends_fatal (t ++ [Fatal msg err]).
Proof. unfold ends_fatal. rewrite rev_app_distr. exact I. Qed.

(** C2: when the first 8 bytes of the raw video channel are available,
    [main] decodes bytes 0-3 as the little-endian unsigned 32-bit width
    and bytes 4-7 as the height before anything is handed to the
    encoder, which then receives exactly the bytes after the header;
    when the channel closes before the 8 header bytes are read, [main]
    ends in [log.Fatal] (exit status 1) and no track was published. *)
Theorem header_handshake :
  (forall w b0 b1 b2 b3 b4 b5 b6 b7 rest,
      videoPipe w = b0 :: b1 :: b2 :: b3 :: b4 :: b5 :: b6 :: b7 :: rest ->
      result (Live.open_pipes w) = Done tt ->
      exists post,
        trace (Live.main w)
        = trace (Live.open_pipes w)
          ++ Printf (ReceivedDimensions (le_value b0 b1 b2 b3)
                       (le_value b4 b5 b6 b7)) :: post
        /\ Forall startup_only (trace (Live.open_pipes w))
        /\ Forall (video_from rest (le_value b0 b1 b2 b3, le_value b4 b5 b6 b7))
             post)
  /\ (forall w,
         (length (videoPipe w) < 8)%nat ->
         result (Live.main w) = Exit 1
         /\ ends_fatal (trace (Live.main w))
         /\ Forall startup_only (trace (Live.main w))).
Proof.
  split.
  - intros w b0 b1 b2 b3 b4 b5 b6 b7 rest Hpipe Hopen.
    destruct (live_main_trace w) as (closes & Htrace & Hcloses & _).
    set (width := le_value b0 b1 b2 b3) in *.
    set (height := le_value b4 b5 b6 b7) in *.
    set (later := Live.start_pipeline w width height rest ;;
                  Live.monitor w ;; teardown w).
    assert (Hbody : trace (Live.main_body w)
                    = trace (Live.open_pipes w)
                      ++ Printf (ReceivedDimensions width height) :: trace later).
    { unfold Live.main_body. rewrite trace_bind, Hopen, Hpipe.
      rewrite read_dimensions_header. fold width height.
      unfold bind at 1. fold later. destruct later. reflexivity. }
    exists (trace later ++ closes). split; [| split].
    + rewrite Htrace, Hbody, <- app_assoc. reflexivity.
    + apply open_pipes_startup.
    + apply Forall_app. split.
      * unfold later. apply Forall_trace_bind;
          [apply start_pipeline_video | intros _].
        apply Forall_trace_bind; [apply monitor_video | intros _].
        apply teardown_video.
      * destruct Hcloses as [-> | ->]; [constructor | apply deferred_video].
  - intros w Hshort.
    destruct (read_dimensions_short _ Hshort) as (msg & e & Hread).
    destruct (open_pipes_startup w) as [Hstart Hres].
    assert (Hbody : result (Live.main_body w) = Exit 1
                    /\ ends_fatal (trace (Live.main_body w))
                    /\ Forall startup_only (trace (Live.main_body w))).
    { unfold Live.main_body. rewrite result_bind, trace_bind.
      destruct Hres as [Hdone | [Hexit Hfatal]].
      - rewrite Hdone, Hread. unfold bind at 1 2. simpl.
        split; [reflexivity | split].
        + apply ends_fatal_snoc.
        + apply Forall_app. split; [assumption | repeat constructor].
      - rewrite Hexit, app_nil_r. auto. }
    destruct Hbody as (Hexit & Hfatal & Honly).
    unfold Live.main.
    destruct (Live.main_body w) as [t o]. simpl in Hexit. subst o.
    simpl. auto.
Qed.

(** An 8-byte header 00 02 00 00 / e0 01 00 00 (512 x 480) followed by
    one pixel byte, and a channel that closes after 5 bytes. *)
Lemma header_handshake_witness :
  (exists post,
      trace (Live.main (mkWorld ["stream"; "room"]%string (fun _ => None)
               [Byte.x00; Byte.x02; Byte.x00; Byte.x00;
                Byte.xe0; Byte.x01; Byte.x00; Byte.x00; Byte.x7f] [] [] []))
      = trace (Live.open_pipes (mkWorld ["stream"; "room"]%string (fun _ => None)
               [Byte.x00; Byte.x02; Byte.x00; Byte.x00;
                Byte.xe0; Byte.x01; Byte.x00; Byte.x00; Byte.x7f] [] [] []))
        ++ Printf (ReceivedDimensions 512 480) :: post
      /\ In (EncoderInput Video [Byte.x7f]) post)
  /\ result (Live.main (mkWorld ["stream"; "room"]%string (fun _ => None)
               [Byte.x00; Byte.x02; Byte.x00; Byte.x00; Byte.xe0] [] [] []))
     = Exit 1.
Proof.
  split.
  - destruct (proj1 header_handshake
                (mkWorld ["stream"; "room"]%string (fun _ => None)
                   [Byte.x00; Byte.x02; Byte.x00; Byte.x00;
                    Byte.xe0; Byte.x01; Byte.x00; Byte.x00; Byte.x7f] [] [] [])
                Byte.x00 Byte.x02 Byte.x00 Byte.x00
                Byte.xe0 Byte.x01 Byte.x00 Byte.x00 [Byte.x7f]
                eq_refl eq_refl) as (post & Htrace & _ & _).
    exists post. split; [exact Htrace |].
    vm_compute in Htrace. injection Htrace as <-.
    simpl. auto.
  - apply (proj2 header_handshake). simpl. lia.
Defined.

(** ** The completion callbacks *)

Lemma Sub_fromNow t u : fromNow t -> fromNow u -> Sub t u = reading t - reading u.
Proof.
  intros (a & Ha & Hra) (b & Hb & Hrb).
  unfold Sub, reading. rewrite Ha, Hb. unfold subMono.
  rewrite wrap64_small by (unfold in_int64; lia).
  destruct (Z.ltb_spec (a - b) 0), (Z.gtb_spec a b),
    (Z.gtb_spec (a - b) 0), (Z.ltb_spec a b); simpl; lia.
Qed.

Lemma quot_between lo hi a b :
  0 < b -> lo * b <= a <= hi * b -> lo <= Z.quot a b <= hi.
Proof.
  intros Hb [Hlo Hhi].
  pose proof (Z.quot_rem' a b) as E.
  assert (Hr : - b < Z.rem a b < b).
  { destruct (Z.le_ge_cases 0 a) as [Ha | Ha].
    - pose proof (Z.rem_bound_pos a b Ha Hb). lia.
    - pose proof (Z.rem_bound_pos_neg a b Hb). lia. }
  split; nia.
Qed.

Lemma quot_abs_le a b : 0 < b -> Z.abs (Z.quot a b) <= Z.abs a.
Proof.
  intros Hb.
  destruct (quot_between (- Z.abs a) (Z.abs a) a b Hb); [nia | lia].
Qed.

(** The first invocation of the video closure. *)
Lemma video_first now v :
  firstVideoFrame v = false ->
  videoOnWriteComplete now v
  = Some (set_lastFrameTime now (set_firstVideoFrame true (set_startTime now v)),
          [VideoFirstFrame now (Sub now now) (videoBytesRead v)]).
Proof.
  intros H. unfold videoOnWriteComplete. rewrite H. reflexivity.
Qed.

(** Every later invocation, as long as the frame counter has room. *)
Lemma video_later now v :
  firstVideoFrame v = true ->
  0 <= frameCount v < 2 ^ 63 - 1 ->
  exists v',
    videoOnWriteComplete now v
    = Some (v', video_periodic (Sub now (lastFrameTime v)) v')
    /\ frameCount v' = frameCount v + 1
    /\ totalEncodeTime v'
       = wrap64 (totalEncodeTime v + Sub now (lastFrameTime v))
    /\ maxEncodeTime v' = Z.max (maxEncodeTime v) (Sub now (lastFrameTime v))
    /\ minEncodeTime v' = Z.min (minEncodeTime v) (Sub now (lastFrameTime v))
    /\ lastFrameTime v' = now
    /\ startTime v' = startTime v
    /\ firstVideoFrame v' = true
    /\ firstAudioFrame v' = firstAudioFrame v
    /\ audioFrameCount v' = audioFrameCount v
    /\ videoBytesRead v' = videoBytesRead v
    /\ audioBytesRead v' = audioBytesRead v.
Proof.
  intros Hfirst Hcount.
  destruct v as [fc lft tot mx mn st fv fa vb ab afc]. simpl in *. subst fv.
  assert (Hdiv : forall a, div64 a (fc + 1) = Some (wrap64 (Z.quot a (fc + 1)))).
  { intros a. unfold div64.
    destruct (Z.eqb_spec (fc + 1) 0); [lia | reflexivity]. }
  unfold videoOnWriteComplete, video_periodic.
  cbv beta iota zeta delta
    [negb set_frameCount set_lastFrameTime set_totalEncodeTime
     set_maxEncodeTime set_minEncodeTime frameCount lastFrameTime
     totalEncodeTime maxEncodeTime minEncodeTime startTime firstVideoFrame
     firstAudioFrame videoBytesRead audioBytesRead audioFrameCount].
  set (e := Sub now lft).
  rewrite (wrap64_small (fc + 1)) by (unfold in_int64; lia).
  destruct (Z.gtb_spec e mx) as [Hmx | Hmx];
    destruct (Z.ltb_spec e mn) as [Hmn | Hmn];
    cbv beta iota;
    destruct (rem64 (fc + 1) 100 =? 0) eqn:Hrem; try rewrite Hdiv;
    match goal with |- exists v', Some (?x, _) = _ /\ _ => exists x end;
    cbv beta iota delta
      [frameCount lastFrameTime totalEncodeTime maxEncodeTime minEncodeTime
       startTime firstVideoFrame firstAudioFrame videoBytesRead
       audioBytesRead audioFrameCount];
    rewrite Hrem; repeat split; lia.
Qed.

Lemma run_video_cons t ts v :
  run_video (t :: ts) v
  = match videoOnWriteComplete t v with
    | None => None
    | Some (v', out) =>
        match run_video ts v' with
        | None => None
        | Some (v'', outs) => Some (v'', map (pair Video) out ++ outs)
        end
    end.
Proof. reflexivity. Qed.

(** The invocations after the first keep the statistics exact: no
    counter wraps, no interval saturates, and the total stays between
    [count] times the minimum and [count] times the maximum. *)
Lemma run_video_later ts :
  forall v prev base,
    firstVideoFrame v = true ->
    lastFrameTime v = prev ->
    fromNow prev ->
    Forall fromNow ts ->
    0 <= base < 2 ^ 63 ->
    totalEncodeTime v = reading prev - base ->
    0 <= frameCount v ->
    frameCount v + Z.of_nat (length ts) < 2 ^ 63 ->
    minEncodeTime v * frameCount v <= totalEncodeTime v
      <= maxEncodeTime v * frameCount v ->
    exists v' out,
      run_video ts v = Some (v', out)
      /\ frameCount v' = frameCount v + Z.of_nat (length ts)
      /\ totalEncodeTime v' = totalEncodeTime v + sum (intervals prev ts)
      /\ minEncodeTime v' * frameCount v' <= totalEncodeTime v'
           <= maxEncodeTime v' * frameCount v'
      /\ - 2 ^ 63 < totalEncodeTime v' < 2 ^ 63
      /\ startTime v' = startTime v
      /\ firstVideoFrame v' = true.
Proof.
  induction ts as [| t rest IH];
    intros v prev base Hfirst Hlast Hprev Hts Hbase Htot Hfc Hroom Hmm.
  - exists v, []. simpl. destruct Hprev as (m & Hm & Hr).
    unfold reading in Htot. rewrite Hm in Htot.
    repeat split; try lia; assumption.
  - inversion Hts as [| ? ? Ht Hrest]; subst.
    cbn [length] in Hroom. rewrite Nat2Z.inj_succ in Hroom.
    destruct (video_later t v Hfirst ltac:(lia))
      as (v1 & Hstep & Hfc1 & Htot1 & Hmax1 & Hmin1 & Hlast1 & Hstart1
          & Hfirst1 & _).
    rewrite (Sub_fromNow _ _ Ht Hprev) in *.
    set (e := reading t - reading (lastFrameTime v)) in *.
    assert (Hrt : 0 <= reading t < 2 ^ 63).
    { destruct Ht as (m & Hm & Hr). unfold reading. rewrite Hm. exact Hr. }
    assert (Htot1' : totalEncodeTime v1 = reading t - base).
    { rewrite Htot1, wrap64_small; unfold in_int64, e; lia. }
    assert (Hmm1 : minEncodeTime v1 * frameCount v1 <= totalEncodeTime v1
                   <= maxEncodeTime v1 * frameCount v1).
    { rewrite Hfc1, Hmin1, Hmax1, Htot1', Htot in *.
      assert (Z.min (minEncodeTime v) e * frameCount v
              <= minEncodeTime v * frameCount v)
        by (apply Z.mul_le_mono_nonneg_r; lia).
      assert (maxEncodeTime v * frameCount v
              <= Z.max (maxEncodeTime v) e * frameCount v)
        by (apply Z.mul_le_mono_nonneg_r; lia).
      unfold e in *. lia. }
    destruct (IH v1 t base Hfirst1 Hlast1 Ht Hrest Hbase Htot1'
                ltac:(lia) ltac:(lia) Hmm1)
      as (v' & out & Hrun & Hfc' & Htot' & Hmm' & Hrange' & Hstart' & Hfirst').
    exists v', (map (pair Video)
                  (video_periodic (reading t - reading (lastFrameTime v)) v1)
                ++ out).
    rewrite run_video_cons, Hstep, Hrun.
    split; [reflexivity |].
    cbn [length intervals sum fold_right]. rewrite Nat2Z.inj_succ.
    fold (sum (intervals t rest)).
    repeat split; try lia; congruence.
Qed.

Lemma Forall_prefix {A} (P : A -> Prop) k (l : list A) :
  Forall P l -> Forall P (firstn k l).
Proof.
  revert l. induction k as [| k IH]; intros l H; simpl; [constructor |].
  destruct H; constructor; auto.
Qed.

Lemma Sub_self t : fromNow t -> Sub t t = 0.
Proof. intros H. rewrite Sub_fromNow by assumption. lia. Qed.

Lemma run_video_from_start ts :
  (1 <= length ts)%nat ->
  Forall fromNow ts ->
  Z.of_nat (length ts) <= 2 ^ 63 ->
  exists v out,
    run_video ts initVars = Some (v, out)
    /\ frameCount v = Z.of_nat (length ts) - 1
    /\ totalEncodeTime v = sum (observed_intervals ts)
    /\ minEncodeTime v * frameCount v <= totalEncodeTime v
         <= maxEncodeTime v * frameCount v
    /\ - 2 ^ 63 < totalEncodeTime v < 2 ^ 63
    /\ hd_error ts = Some (startTime v).
Proof.
  intros Hlen Hts Hroom.
  destruct ts as [| t0 rest]; [simpl in Hlen; lia |].
  inversion Hts as [| ? ? Ht0 Hrest]; subst.
  cbn [length] in Hroom. rewrite Nat2Z.inj_succ in Hroom.
  assert (Hr0 : 0 <= reading t0 < 2 ^ 63).
  { destruct Ht0 as (m & Hm & Hr). unfold reading. rewrite Hm. exact Hr. }
  set (v1 := set_lastFrameTime t0
               (set_firstVideoFrame true (set_startTime t0 initVars))).
  destruct (run_video_later rest v1 t0 (reading t0))
    as (v & out & Hrun & Hfc & Htot & Hmm & Hrange & Hstart & _);
    try reflexivity; try assumption; try (simpl; lia).
  exists v, (map (pair Video) [VideoFirstFrame t0 (Sub t0 t0) 0] ++ out).
  rewrite run_video_cons, video_first by reflexivity.
  fold v1. rewrite Hrun. cbn [length observed_intervals].
  rewrite Nat2Z.inj_succ.
  simpl in Hfc, Htot, Hstart.
  repeat split; try lia. rewrite Hstart. reflexivity.
Qed.

(** C3: over N >= 2 invocations of the video closure, the first one
    only records the start timestamp (and the last-frame time) and
    leaves count, total, minimum and maximum as they were; every prefix
    of k invocations has recorded k - 1 intervals; at the end the count
    is N - 1, the total is the sum of the N - 1 intervals between the
    invocations, and minimum <= total / count <= maximum. *)
Theorem video_statistics ts :
  (2 <= length ts)%nat ->
  Forall fromNow ts ->
  Z.of_nat (length ts) <= 2 ^ 63 ->
  exists t0 v avg out,
    hd_error ts = Some t0
    /\ videoOnWriteComplete t0 initVars
       = Some (set_lastFrameTime t0
                 (set_firstVideoFrame true (set_startTime t0 initVars)),
               [VideoFirstFrame t0 0 0])
    /\ (forall k, (1 <= k <= length ts)%nat ->
          exists vk outk,
            run_video (firstn k ts) initVars = Some (vk, outk)
            /\ frameCount vk = Z.of_nat k - 1
            /\ totalEncodeTime vk = sum (observed_intervals (firstn k ts)))
    /\ run_video ts initVars = Some (v, out)
    /\ frameCount v = Z.of_nat (length ts) - 1
    /\ totalEncodeTime v = sum (observed_intervals ts)
    /\ div64 (totalEncodeTime v) (frameCount v) = Some avg
    /\ minEncodeTime v <= avg <= maxEncodeTime v.
Proof.
  intros Hlen Hts Hroom.
  destruct (run_video_from_start ts ltac:(lia) Hts Hroom)
    as (v & out & Hrun & Hfc & Htot & Hmm & Hrange & Hhd).
  assert (Hpos : 0 < frameCount v) by lia.
  destruct (quot_between _ _ _ _ Hpos Hmm) as [Hlo Hhi].
  pose proof (quot_abs_le (totalEncodeTime v) _ Hpos) as Habs.
  destruct ts as [| t0 rest]; [simpl in Hlen; lia |].
  exists t0, v, (wrap64 (Z.quot (totalEncodeTime v) (frameCount v))), out.
  split; [reflexivity |]. split; [| split; [| repeat split]];
    try assumption.
  - rewrite video_first by reflexivity.
    rewrite Sub_self by (inversion Hts; assumption). reflexivity.
  - intros k Hk.
    destruct (run_video_from_start (firstn k (t0 :: rest)))
      as (vk & outk & Hrunk & Hfck & Htotk & _).
    + rewrite length_firstn. lia.
    + apply Forall_prefix. exact Hts.
    + rewrite length_firstn. lia.
    + exists vk, outk. rewrite length_firstn in Hfck.
      repeat split; try assumption. lia.
  - unfold div64. destruct (Z.eqb_spec (frameCount v) 0); [lia | reflexivity].
  - rewrite wrap64_small by (unfold in_int64; lia). exact Hlo.
  - rewrite wrap64_small by (unfold in_int64; lia). exact Hhi.
Qed.

(** Three invocations at clock readings 5, 45 and 95 ms. *)
Lemma video_statistics_witness :
  exists t0 v avg out,
    hd_error [mkTime 0 (Some 5000000); mkTime 0 (Some 45000000);
              mkTime 0 (Some 95000000)] = Some t0
    /\ videoOnWriteComplete t0 initVars
       = Some (set_lastFrameTime t0
                 (set_firstVideoFrame true (set_startTime t0 initVars)),
               [VideoFirstFrame t0 0 0])
    /\ (forall k, (1 <= k <= 3)%nat ->
          exists vk outk,
            run_video (firstn k [mkTime 0 (Some 5000000);
                                 mkTime 0 (Some 45000000);
                                 mkTime 0 (Some 95000000)]) initVars
            = Some (vk, outk)
            /\ frameCount vk = Z.of_nat k - 1
            /\ totalEncodeTime vk
               = sum (observed_intervals
                        (firstn k [mkTime 0 (Some 5000000);
                                   mkTime 0 (Some 45000000);
                                   mkTime 0 (Some 95000000)])))
    /\ run_video [mkTime 0 (Some 5000000); mkTime 0 (Some 45000000);
                  mkTime 0 (Some 95000000)] initVars = Some (v, out)
    /\ frameCount v = 3 - 1
    /\ totalEncodeTime v
       = sum (observed_intervals [mkTime 0 (Some 5000000);
                                  mkTime 0 (Some 45000000);
                                  mkTime 0 (Some 95000000)])
    /\ div64 (totalEncodeTime v) (frameCount v) = Some avg
    /\ minEncodeTime v <= avg <= maxEncodeTime v.
Proof.
  apply (video_statistics [mkTime 0 (Some 5000000); mkTime 0 (Some 45000000);
                           mkTime 0 (Some 95000000)]).
  - simpl. lia.
  - repeat constructor; eexists; (split; [reflexivity | lia]).
  - simpl. lia.
Defined.

(** ** The start-code scanner *)

Lemma split_at_four {A} (p : list A) k :
  (k + 4 <= length p)%nat ->
  exists pre a b c d rest,
    p = pre ++ a :: b :: c :: d :: rest /\ length pre = k.
Proof.
  intros H. exists (firstn k p).
  pose proof (firstn_skipn k p) as Hsplit.
  pose proof (length_skipn k p) as Hlen.
  destruct (skipn k p) as [| a [| b [| c [| d rest]]]];
    simpl in Hlen; try lia.
  exists a, b, c, d, rest. split; [symmetry; exact Hsplit |].
  rewrite length_firstn. lia.
Qed.

Lemma index_app pre (l : list byte) j :
  index (pre ++ l) (Z.of_nat (length pre) + Z.of_nat j) = nth_error l j.
Proof.
  unfold index.
  destruct (Z.ltb_spec (Z.of_nat (length pre) + Z.of_nat j) 0); [lia |].
  rewrite nth_error_app2 by lia. f_equal. lia.
Qed.

(** Inside the loop the condition never indexes out of range, and it is
    true exactly at the offsets where a start code lies. *)
Lemma start_code_at_occurs p n k :
  Z.of_nat k < n - 4 ->
  n <= Z.of_nat (length p) ->
  start_code_at p (Z.of_nat k) = Some (occurs_at p n (Z.of_nat k)).
Proof.
  intros Hk Hn.
  destruct (split_at_four p k ltac:(lia)) as (pre & a & b & c & d & rest & -> & Hpre).
  unfold start_code_at, byte_is. subst k.
  pose proof (index_app pre (a :: b :: c :: d :: rest)) as Hidx.
  assert (H0 : index (pre ++ a :: b :: c :: d :: rest) (Z.of_nat (length pre))
               = Some a)
    by (rewrite <- (Z.add_0_r (Z.of_nat (length pre))); exact (Hidx 0%nat)).
  rewrite H0, (Hidx 1%nat : index _ (_ + 1) = _),
    (Hidx 2%nat : index _ (_ + 2) = _), (Hidx 3%nat : index _ (_ + 3) = _).
  cbn [nth_error option_map].
  unfold occurs_at.
  destruct (Z.leb_spec 0 (Z.of_nat (length pre))); [| lia].
  rewrite Nat2Z.id, firstn_app, firstn_all2 by lia.
  rewrite skipn_app, skipn_all2 by lia.
  replace (length pre - length pre)%nat with 0%nat by lia.
  rewrite length_app in Hn. cbn [length] in Hn.
  destruct (Z.to_nat n - length pre)%nat as [| [| [| [| m]]]] eqn:Hm; try lia.
  cbn [firstn skipn app matches].
  destruct (byte_val a =? 0), (byte_val b =? 0), (byte_val c =? 0),
    (byte_val c =? 1), (byte_val d =? 1); reflexivity.
Qed.

Lemma last_start_bound p n k :
  0 <= last_start p n k /\ (last_start p n k < Z.of_nat k \/ k = 0%nat).
Proof.
  induction k as [| k IH]; [simpl; lia |].
  cbn [last_start]. destruct (occurs_at p n (Z.of_nat k)); [lia |].
  destruct IH as [Hlo [Hlt | ->]]; [lia | simpl; lia].
Qed.

(** The loop, entered at offset [k] with [start] holding the last start
    code before [k], prints the lines due for the offsets it visits. *)
Lemma scan_loop_reports name p n iters :
  forall k,
    Z.of_nat (k + iters) <= n - 4 ->
    n <= Z.of_nat (length p) ->
    scan_loop name p iters (Z.of_nat k) (last_start p n k)
    = Some (flat_map (report name p n) (seq k iters)).
Proof.
  induction iters as [| iters IH]; intros k Hk Hn; [reflexivity |].
  cbn [scan_loop seq flat_map].
  rewrite (start_code_at_occurs p n k) by lia.
  replace (Z.of_nat k + 1) with (Z.of_nat (S k)) by lia.
  pose proof (IH (S k) ltac:(lia) Hn) as Hrest.
  cbn [last_start] in Hrest. unfold report at 1.
  destruct (occurs_at p n (Z.of_nat k)).
  - rewrite Hrest. cbn [option_map andb]. do 2 f_equal.
    destruct (last_start_bound p n k) as [Hlo [Hlt | ->]].
    + destruct (Z.ltb_spec (last_start p n k) (Z.of_nat k)),
        (Z.ltb_spec 0 (Z.of_nat k)); try lia; reflexivity.
    + reflexivity.
  - rewrite Hrest. reflexivity.
Qed.

Lemma scan_reports name p n :
  0 <= n <= Z.of_nat (length p) ->
  scan name p n
  = Some (flat_map (report name p n) (seq 0 (Z.to_nat (n - 4)))).
Proof.
  intros Hn. unfold scan.
  destruct (Z.to_nat (n - 4)) as [| m] eqn:Hm; [reflexivity |].
  apply (scan_loop_reports name p n (S m) 0%nat); lia.
Qed.

(** C6, as the code has it: within a read of [n] bytes, every start
    code that begins at an offset [i] with [0 < i < n - 4] is reported
    at [i], together with the distance to the previous start code of the
    buffer (or to offset 0); every reported offset is positive and
    carries a start code.  A start code at offset 0 is never reported:
    the report is guarded by [start < i]. *)
Theorem scanner_reports name p n :
  0 <= n <= Z.of_nat (length p) ->
  exists found,
    scan name p n = Some found
    /\ (forall i, 0 < i < n - 4 -> occurs_at p n i = true ->
          In (FoundStartCode name i (i - last_start p n (Z.to_nat i))) found)
    /\ (forall name' i chunk, In (FoundStartCode name' i chunk) found ->
          name' = name /\ 0 < i /\ occurs_at p n i = true
          /\ chunk = i - last_start p n (Z.to_nat i)).
Proof.
  intros Hn. eexists. split; [apply scan_reports; exact Hn |]. split.
  - intros i Hi Hocc. apply in_flat_map. exists (Z.to_nat i). split.
    + apply in_seq. lia.
    + unfold report. rewrite Z2Nat.id by lia. rewrite Hocc.
      destruct (Z.ltb_spec 0 i); [| lia]. simpl. auto.
  - intros name' i chunk Hin. apply in_flat_map in Hin.
    destruct Hin as (k & _ & Hin). unfold report in Hin.
    destruct (occurs_at p n (Z.of_nat k)) eqn:Hocc; [| contradiction].
    destruct (Z.ltb_spec 0 (Z.of_nat k)); [| contradiction].
    destruct Hin as [Heq | []]. injection Heq as <- <- <-.
    rewrite Nat2Z.id. auto.
Qed.

(** A 9-byte read 09 00 00 01 09 09 09 09 09: the start code at offset 1
    is reported. *)
Lemma scanner_reports_witness :
  exists found,
    scan "Video"%string
      [Byte.x09; Byte.x00; Byte.x00; Byte.x01; Byte.x09; Byte.x09;
       Byte.x09; Byte.x09; Byte.x09] 9 = Some found
    /\ (forall i, 0 < i < 9 - 4 ->
          occurs_at [Byte.x09; Byte.x00; Byte.x00; Byte.x01; Byte.x09;
                     Byte.x09; Byte.x09; Byte.x09; Byte.x09] 9 i = true ->
          In (FoundStartCode "Video"%string i
                (i - last_start [Byte.x09; Byte.x00; Byte.x00; Byte.x01;
                                 Byte.x09; Byte.x09; Byte.x09; Byte.x09;
                                 Byte.x09] 9 (Z.to_nat i))) found)
    /\ (forall name' i chunk, In (FoundStartCode name' i chunk) found ->
          name' = "Video"%string /\ 0 < i
          /\ occurs_at [Byte.x09; Byte.x00; Byte.x00; Byte.x01; Byte.x09;
                        Byte.x09; Byte.x09; Byte.x09; Byte.x09] 9 i = true
          /\ chunk = i - last_start [Byte.x09; Byte.x00; Byte.x00; Byte.x01;
                                     Byte.x09; Byte.x09; Byte.x09; Byte.x09;
                                     Byte.x09] 9 (Z.to_nat i)).
Proof.
  apply (scanner_reports "Video"%string
           [Byte.x09; Byte.x00; Byte.x00; Byte.x01; Byte.x09; Byte.x09;
            Byte.x09; Byte.x09; Byte.x09] 9).
  simpl. lia.
Defined.

(** The read 00 00 01 09 09 09 holds a start code at offset 0, within
    the buffer, and the scanner prints nothing for it. *)
Lemma start_code_at_offset_0_unreported : ~ reports_every_start_code.
Proof.
  intros H.
  destruct (H "Video"%string
              [Byte.x00; Byte.x00; Byte.x01; Byte.x09; Byte.x09; Byte.x09]
              6 [] ltac:(simpl; lia) eq_refl 0 eq_refl) as [chunk []].
Qed.

(** A start code that ends the read, 09 09 00 00 00 01, is not visited
    by the loop, which stops at [i = n - 5]. *)
Example start_code_at_tail :
  occurs_at [Byte.x09; Byte.x09; Byte.x00; Byte.x00; Byte.x00; Byte.x01] 6 2
  = true
  /\ scan "Video"%string
       [Byte.x09; Byte.x09; Byte.x00; Byte.x00; Byte.x00; Byte.x01] 6
     = Some [].
Proof. split; reflexivity. Qed.

(** ** [H264Reader.Read] is transparent *)

Lemma scan_output_total name p n :
  0 <= n <= Z.of_nat (length p) ->
  exists printed, scan_output name p n = Some printed.
Proof.
  intros Hn. unfold scan_output. rewrite scan_reports by exact Hn.
  destruct (n >? 0); simpl; eauto.
Qed.

(** C7: whatever the wrapped reader returns (within the [io.Reader]
    contract [0 <= n <= len(p)]), [H264Reader.Read] returns the same
    count and error and the same buffer contents; the reader's own
    fields [name] and [buffer] are unchanged, and the lines it adds are
    [scan_output] of the name, the current buffer and the current count
    alone. *)
Theorem H264Reader_Read_transparent {R} `{ReadCloser R}
  (h : H264Reader R) (p : list byte) (r : ReadResult R) :
  Read (h_reader h) p = Some r ->
  reader_contract r ->
  exists printed,
    scan_output (h_name h) (rr_p r) (rr_n r) = Some printed
    /\ H264Reader_Read h p
       = Some (mkRead (mkH264Reader (rr_reader r) (h_name h) (h_buffer h))
                 (rr_p r) (rr_n r) (rr_err r) (rr_out r ++ printed)).
Proof.
  intros Hread Hcontract.
  destruct (scan_output_total (h_name h) (rr_p r) (rr_n r) Hcontract)
    as [printed Hprinted].
  exists printed. split; [exact Hprinted |].
  unfold H264Reader_Read. rewrite Hread, Hprinted. reflexivity.
Qed.

(** A reader named "Video" with a non-empty [buffer] field, over a pipe
    holding 09 00 00 01 09 09 09, read into a 7-byte buffer. *)
Lemma H264Reader_Read_transparent_witness :
  exists printed,
    scan_output "Video"%string
      [Byte.x09; Byte.x00; Byte.x00; Byte.x01; Byte.x09; Byte.x09; Byte.x09] 7
    = Some printed
    /\ H264Reader_Read
         (mkH264Reader
            [Byte.x09; Byte.x00; Byte.x00; Byte.x01; Byte.x09; Byte.x09;
             Byte.x09]
            "Video"%string [Byte.xff])
         (repeat Byte.x00 7)
       = Some (mkRead (mkH264Reader [] "Video"%string [Byte.xff])
                 [Byte.x09; Byte.x00; Byte.x00; Byte.x01; Byte.x09; Byte.x09;
                  Byte.x09]
                 7 None ([] ++ printed)).
Proof.
  apply (H264Reader_Read_transparent
           (mkH264Reader
              [Byte.x09; Byte.x00; Byte.x00; Byte.x01; Byte.x09; Byte.x09;
               Byte.x09]
              "Video"%string [Byte.xff])
           (repeat Byte.x00 7)
           (mkRead [] [Byte.x09; Byte.x00; Byte.x00; Byte.x01; Byte.x09;
                       Byte.x09; Byte.x09] 7 None [])).
  - reflexivity.
  - unfold reader_contract. simpl. lia.
Defined.

(** ** The two closures and each other's variables *)

Lemma audio_total now v :
  exists v' out,
    audioOnWriteComplete now v = Some (v', out)
    /\ video_part v' = video_part v
    /\ audioBytesRead v' = audioBytesRead v
    /\ firstAudioFrame v' = true
    /\ audioFrameCount v'
       = (if firstAudioFrame v then wrap64 (audioFrameCount v + 1)
          else audioFrameCount v)
    /\ out = (if firstAudioFrame v then
                if rem64 (audioFrameCount v') 500 =? 0 then
                  [AudioProcessed (audioFrameCount v') (Sub now (startTime v))
                     (audioBytesRead v)]
                else []
              else [AudioFirstFrame now (Sub now (startTime v))
                      (audioBytesRead v)]).
Proof.
  destruct v as [fc lft tot mx mn st fv fa vb ab afc].
  unfold audioOnWriteComplete. simpl.
  destruct fa; simpl.
  - destruct (rem64 (wrap64 (afc + 1)) 500 =? 0) eqn:Hrem;
      do 2 eexists; (split; [reflexivity |]); simpl; rewrite ?Hrem; auto.
  - do 2 eexists. split; [reflexivity |]. simpl. auto.
Qed.

(** The video closure reads nothing but its own variables. *)
Lemma video_reads_own now v1 v2 :
  video_part v1 = video_part v2 ->
  match videoOnWriteComplete now v1, videoOnWriteComplete now v2 with
  | Some (v1', o1), Some (v2', o2) =>
      video_part v1' = video_part v2' /\ o1 = o2
  | None, None => True
  | _, _ => False
  end.
Proof.
  destruct v1 as [fc lft tot mx mn st fv fa vb ab afc].
  destruct v2 as [fc2 lft2 tot2 mx2 mn2 st2 fv2 fa2 vb2 ab2 afc2].
  unfold video_part. simpl. intros [= <- <- <- <- <- <- <- <-].
  unfold videoOnWriteComplete.
  cbv beta iota zeta delta
    [negb set_frameCount set_lastFrameTime set_totalEncodeTime
     set_maxEncodeTime set_minEncodeTime set_startTime set_firstVideoFrame
     frameCount lastFrameTime
     totalEncodeTime maxEncodeTime minEncodeTime startTime firstVideoFrame
     firstAudioFrame videoBytesRead audioBytesRead audioFrameCount].
  destruct fv; [| split; reflexivity].
  destruct (Sub now lft >? mx), (Sub now lft <? mn);
    cbv beta iota;
    destruct (rem64 (wrap64 (fc + 1)) 100 =? 0);
    try (split; reflexivity);
    match goal with
    | |- context [div64 ?a ?b] => destruct (div64 a b)
    end; try exact I; split; reflexivity.
Qed.

(** The video closure writes nothing but its own variables. *)
Lemma video_writes_own now v v' out :
  videoOnWriteComplete now v = Some (v', out) ->
  audio_part v' = audio_part v.
Proof.
  destruct v as [fc lft tot mx mn st fv fa vb ab afc].
  unfold videoOnWriteComplete.
  cbv beta iota zeta delta
    [negb set_frameCount set_lastFrameTime set_totalEncodeTime
     set_maxEncodeTime set_minEncodeTime set_startTime set_firstVideoFrame
     frameCount lastFrameTime
     totalEncodeTime maxEncodeTime minEncodeTime startTime firstVideoFrame
     firstAudioFrame videoBytesRead audioBytesRead audioFrameCount].
  destruct fv; [| intros [= <- _]; reflexivity].
  destruct (Sub now lft >? mx), (Sub now lft <? mn);
    cbv beta iota;
    destruct (rem64 (wrap64 (fc + 1)) 100 =? 0);
    try (intros [= <- _]; reflexivity);
    match goal with
    | |- context [div64 ?a ?b] => destruct (div64 a b)
    end; try discriminate; intros [= <- _]; reflexivity.
Qed.

Lemma audio_reads_own now v1 v2 :
  audio_part v1 = audio_part v2 ->
  exists v1' o1 v2' o2,
    audioOnWriteComplete now v1 = Some (v1', o1)
    /\ audioOnWriteComplete now v2 = Some (v2', o2)
    /\ video_part v1' = video_part v1
    /\ audio_part v1' = audio_part v2'
    /\ map without_delay o1 = map without_delay o2.
Proof.
  destruct v1 as [fc lft tot mx mn st fv fa vb ab afc].
  destruct v2 as [fc2 lft2 tot2 mx2 mn2 st2 fv2 fa2 vb2 ab2 afc2].
  unfold audio_part. simpl. intros [= <- <- <-].
  unfold audioOnWriteComplete. simpl.
  destruct fa; simpl.
  - destruct (rem64 (wrap64 (afc + 1)) 500 =? 0);
      do 4 eexists; repeat split; reflexivity.
  - do 4 eexists. repeat split; reflexivity.
Qed.

Lemma lines_of_app k o1 o2 :
  lines_of k (o1 ++ o2) = lines_of k o1 ++ lines_of k o2.
Proof. unfold lines_of. rewrite filter_app, map_app. reflexivity. Qed.

Lemma lines_of_same k o : lines_of k (map (pair k) o) = o.
Proof.
  unfold lines_of. induction o as [| l o IH]; [reflexivity |].
  simpl. destruct k; simpl; f_equal; exact IH.
Qed.

Lemma lines_of_other k k' o :
  kind_eqb k' k = false -> lines_of k (map (pair k') o) = [].
Proof.
  intros H. unfold lines_of. induction o as [| l o IH]; [reflexivity |].
  simpl. rewrite H. exact IH.
Qed.

(** An interleaved run, seen from the video closure, is the run of the
    video closure alone: same variables, same lines, and a panic in one
    is a panic in the other. *)
Lemma video_projection calls :
  forall s s',
    video_part s' = video_part s ->
    match run_callbacks calls s, run_video (times Video calls) s' with
    | Some (v, out), Some (v', out') =>
        video_part v = video_part v'
        /\ lines_of Video out = lines_of Video out'
    | None, None => True
    | _, _ => False
    end.
Proof.
  induction calls as [| [[|] t] rest IH]; intros s s' Hpart.
  - simpl. auto.
  - change (times Video ((Video, t) :: rest)) with (t :: times Video rest).
    rewrite run_video_cons. cbn [run_callbacks invoke fst snd].
    pose proof (video_reads_own t s s' (eq_sym Hpart)) as Hstep.
    destruct (videoOnWriteComplete t s) as [[s1 o1] |],
      (videoOnWriteComplete t s') as [[s1' o1'] |]; try contradiction;
      [| exact I].
    destruct Hstep as [Hpart1 <-].
    specialize (IH s1 s1' (eq_sym Hpart1)).
    destruct (run_callbacks rest s1) as [[v out] |],
      (run_video (times Video rest) s1') as [[v' out'] |];
      try contradiction; [| exact I].
    destruct IH as [Hv Hout]. split; [exact Hv |].
    rewrite !lines_of_app, Hout. reflexivity.
  - change (times Video ((Audio, t) :: rest)) with (times Video rest).
    cbn [run_callbacks invoke fst snd].
    destruct (audio_total t s) as (s1 & o1 & Hstep & Hpart1 & _).
    rewrite Hstep.
    specialize (IH s1 s' ltac:(congruence)).
    destruct (run_callbacks rest s1) as [[v out] |],
      (run_video (times Video rest) s') as [[v' out'] |];
      try contradiction; [| exact I].
    destruct IH as [Hv Hout]. split; [exact Hv |].
    rewrite lines_of_app, lines_of_other by reflexivity. exact Hout.
Qed.

(** Seen from the audio closure, an interleaved run that did not panic
    is the run of the audio closure alone, up to the one thing the
    audio closure reads from the video side: [startTime], printed as a
    duration in its two lines. *)
Lemma audio_projection calls :
  forall s s' v out,
    audio_part s' = audio_part s ->
    run_callbacks calls s = Some (v, out) ->
    exists v' out',
      run_audio (times Audio calls) s' = Some (v', out')
      /\ audio_part v = audio_part v'
      /\ map without_delay (lines_of Audio out)
         = map without_delay (lines_of Audio out').
Proof.
  induction calls as [| [[|] t] rest IH]; intros s s' v out Hpart Hrun.
  - injection Hrun as <- <-. exists s', []. simpl. auto.
  - change (times Audio ((Video, t) :: rest)) with (times Audio rest).
    cbn [run_callbacks invoke fst snd] in Hrun.
    destruct (videoOnWriteComplete t s) as [[s1 o1] |] eqn:Hstep;
      [| discriminate].
    destruct (run_callbacks rest s1) as [[v1 out1] |] eqn:Hrest;
      [| discriminate].
    injection Hrun as <- <-.
    pose proof (video_writes_own _ _ _ _ Hstep) as Hown.
    destruct (IH s1 s' v1 out1 ltac:(congruence) Hrest)
      as (v' & out' & Hrun' & Hv & Hout).
    exists v', out'. split; [exact Hrun' | split; [exact Hv |]].
    rewrite lines_of_app, lines_of_other by reflexivity. exact Hout.
  - change (times Audio ((Audio, t) :: rest)) with (t :: times Audio rest).
    cbn [run_callbacks invoke fst snd] in Hrun.
    destruct (audio_reads_own t s s' (eq_sym Hpart))
      as (s1 & o1 & s1' & o1' & Hstep & Hstep' & _ & Hpart1 & Ho).
    rewrite Hstep in Hrun.
    destruct (run_callbacks rest s1) as [[v1 out1] |] eqn:Hrest;
      [| discriminate].
    injection Hrun as <- <-.
    destruct (IH s1 s1' v1 out1 (eq_sym Hpart1) Hrest)
      as (v' & out' & Hrun' & Hv & Hout).
    exists v', (map (pair Audio) o1' ++ out').
    unfold run_audio in *. cbn [map run_callbacks invoke fst snd].
    rewrite Hstep', Hrun'. split; [reflexivity | split; [exact Hv |]].
    rewrite !lines_of_app, !lines_of_same, !map_app, Ho, Hout. reflexivity.
Qed.

(** C8, as the code has it: each closure writes only its own
    variables; in any two interleavings with the same video
    invocations, the video closure sees the same variables and prints
    the same lines; with the same audio invocations, the audio closure
    ends with the same variables and prints the same lines except for
    the "since video start" duration, which it computes from
    [startTime], a variable the video closure sets. *)
Theorem callbacks_isolation calls1 calls2 v1 o1 v2 o2 :
  run_callbacks calls1 initVars = Some (v1, o1) ->
  run_callbacks calls2 initVars = Some (v2, o2) ->
  (times Video calls1 = times Video calls2 ->
   video_part v1 = video_part v2 /\ lines_of Video o1 = lines_of Video o2)
  /\ (times Audio calls1 = times Audio calls2 ->
      audio_part v1 = audio_part v2
      /\ map without_delay (lines_of Audio o1)
         = map without_delay (lines_of Audio o2))
  /\ (forall now v v' out,
         audioOnWriteComplete now v = Some (v', out) ->
         video_part v' = video_part v)
  /\ (forall now v v' out,
         videoOnWriteComplete now v = Some (v', out) ->
         audio_part v' = audio_part v).
Proof.
  intros Hrun1 Hrun2. split; [| split; [| split]].
  - intros Htimes.
    pose proof (video_projection calls1 initVars initVars eq_refl) as H1.
    pose proof (video_projection calls2 initVars initVars eq_refl) as H2.
    rewrite Hrun1 in H1. rewrite Hrun2, <- Htimes in H2.
    destruct (run_video (times Video calls1) initVars) as [[v out] |];
      [| contradiction].
    destruct H1 as [Hv1 Ho1], H2 as [Hv2 Ho2]. split; congruence.
  - intros Htimes.
    destruct (audio_projection calls1 initVars initVars v1 o1 eq_refl Hrun1)
      as (va & oa & Ha & Hv1 & Ho1).
    destruct (audio_projection calls2 initVars initVars v2 o2 eq_refl Hrun2)
      as (vb & ob & Hb & Hv2 & Ho2).
    rewrite <- Htimes, Ha in Hb. injection Hb as <- <-.
    split; congruence.
  - intros now v v' out Hstep.
    destruct (audio_total now v) as (v1' & out' & Hstep' & Hpart & _).
    congruence.
  - exact video_writes_own.
Qed.

(** Video at 5 ms then audio at 10 ms, against video at 7 ms, audio at
    10 ms and one more video invocation. *)
Lemma callbacks_isolation_witness :
  exists v1 o1 v2 o2,
    run_callbacks [(Video, mkTime 0 (Some 5000000));
                   (Audio, mkTime 0 (Some 10000000))] initVars = Some (v1, o1)
    /\ run_callbacks [(Video, mkTime 0 (Some 7000000));
                      (Audio, mkTime 0 (Some 10000000));
                      (Video, mkTime 0 (Some 47000000))] initVars
       = Some (v2, o2)
    /\ audio_part v1 = audio_part v2
    /\ map without_delay (lines_of Audio o1)
       = map without_delay (lines_of Audio o2).
Proof.
  do 4 eexists. split; [reflexivity |]. split; [reflexivity |].
  apply (callbacks_isolation
           [(Video, mkTime 0 (Some 5000000));
            (Audio, mkTime 0 (Some 10000000))]
           [(Video, mkTime 0 (Some 7000000));
            (Audio, mkTime 0 (Some 10000000));
            (Video, mkTime 0 (Some 47000000))]
           _ _ _ _ eq_refl eq_refl).
  reflexivity.
Defined.

(** The same audio invocation prints "delay from video start" 5 ms
    after a video start at 5 ms and 3 ms after a video start at 7 ms. *)
Lemma audio_prints_video_start : ~ audio_output_independent.
Proof.
  intros H.
  specialize (H [(Video, mkTime 0 (Some 5000000));
                 (Audio, mkTime 0 (Some 10000000))]
                [(Video, mkTime 0 (Some 7000000));
                 (Audio, mkTime 0 (Some 10000000))]
                _ _ _ _ eq_refl eq_refl eq_refl).
  vm_compute in H. discriminate H.
Qed.

(** ** The periodic diagnostic lines *)

Lemma run_video_count ts :
  forall v,
    firstVideoFrame v = true ->
    0 <= frameCount v ->
    frameCount v + Z.of_nat (length ts) < 2 ^ 63 ->
    exists v' out,
      run_video ts v = Some (v', out)
      /\ frameCount v' = frameCount v + Z.of_nat (length ts)
      /\ firstVideoFrame v' = true.
Proof.
  induction ts as [| t rest IH]; intros v Hfirst Hfc Hroom.
  - exists v, []. simpl. repeat split; [lia | assumption].
  - cbn [length] in Hroom. rewrite Nat2Z.inj_succ in Hroom.
    destruct (video_later t v Hfirst ltac:(lia))
      as (v1 & Hstep & Hfc1 & _ & _ & _ & _ & _ & Hfirst1 & _).
    destruct (IH v1 Hfirst1 ltac:(lia) ltac:(lia))
      as (v' & out & Hrun & Hfc' & Hfirst').
    rewrite run_video_cons, Hstep, Hrun. do 2 eexists.
    split; [reflexivity |]. cbn [length]. rewrite Nat2Z.inj_succ.
    split; [lia | assumption].
Qed.

(** From the initial variables: no invocation leaves them untouched; [n]
    invocations (n >= 1) leave the count at [n - 1]. *)
Lemma run_video_count_from_start ts :
  Z.of_nat (length ts) <= 2 ^ 63 ->
  exists v out,
    run_video ts initVars = Some (v, out)
    /\ (ts = [] /\ v = initVars
        \/ ts <> [] /\ firstVideoFrame v = true
           /\ frameCount v = Z.of_nat (length ts) - 1).
Proof.
  intros Hroom. destruct ts as [| t0 rest].
  - exists initVars, []. auto.
  - cbn [length] in Hroom. rewrite Nat2Z.inj_succ in Hroom.
    set (v1 := set_lastFrameTime t0
                 (set_firstVideoFrame true (set_startTime t0 initVars))).
    destruct (run_video_count rest v1 eq_refl ltac:(simpl; lia)
                ltac:(simpl; lia))
      as (v & out & Hrun & Hfc & Hfirst).
    rewrite run_video_cons, video_first by reflexivity. fold v1.
    rewrite Hrun. do 2 eexists. split; [reflexivity |]. right.
    cbn [length]. rewrite Nat2Z.inj_succ. simpl in Hfc.
    repeat split; [discriminate | assumption | lia].
Qed.







(** The first invocation of each closure, at clock reading 5 ms. *)
Example first_invocation_lines :
  nth_output Video [mkTime 0 (Some 5000000)] 1
  = Some [VideoFirstFrame (mkTime 0 (Some 5000000)) 0 0]
  /\ nth_output Audio [mkTime 0 (Some 5000000)] 1
     = Some [AudioFirstFrame (mkTime 0 (Some 5000000))
               (Sub (mkTime 0 (Some 5000000)) zeroTime) 0].
Proof. split; reflexivity. Qed.


(** ** Teardown and the final statistics *)

Lemma final_stats_lines v :
  final_stats v = (map Printf (final_lines v), Done tt).
Proof.
  unfold final_stats, final_lines, div64.
  destruct (Z.gtb_spec (frameCount v) 0) as [Hpos | Hle]; [| reflexivity].
  destruct (Z.eqb_spec (frameCount v) 0); [lia | reflexivity].
Qed.

Lemma teardown_lines w v out :
  run_callbacks (calls w) initVars = Some (v, out) ->
  teardown w
  = (map Printf (final_lines v) ++ [Kill Video; Kill Audio; Disconnect],
     Done tt).
Proof.
  intros Hrun. unfold teardown, observe_vars. rewrite Hrun.
  unfold ret, bind at 1. rewrite final_stats_lines.
  reflexivity.
Qed.

Lemma open_pipes_running w : Forall running (trace (Live.open_pipes w)).
Proof.
  unfold Live.open_pipes, try, try_quiet.
  destruct (length (args w) <? 2)%nat; simpl; [repeat constructor |].
  branch_on_failures; repeat constructor.
Qed.

Lemma read_dimensions_running pipe :
  Forall running (trace (Live.read_dimensions pipe)).
Proof.
  unfold Live.read_dimensions.
  destruct (binary_Read_uint32 pipe) as [[w rest] | e];
    [| repeat constructor].
  destruct (binary_Read_uint32 rest) as [[h rest'] | e];
    repeat constructor.
Qed.

Lemma start_pipeline_running w width height rest :
  Forall running (trace (Live.start_pipeline w width height rest)).
Proof.
  unfold Live.start_pipeline, try.
  branch_on_failures; repeat constructor.
Qed.

Lemma file_start_pipeline_running w :
  Forall running (trace (File.start_pipeline w)).
Proof.
  unfold File.start_pipeline, try, try_quiet.
  branch_on_failures; repeat constructor.
Qed.

(** [stream.go]: once start-up is through and the presence loop has
    been left at sample [k], what remains is the teardown and the
    deferred closes. *)
Lemma live_main_teardown w width height rest k :
  result (Live.open_pipes w) = Done tt ->
  result (Live.read_dimensions (videoPipe w)) = Done (width, height, rest) ->
  result (Live.start_pipeline w width height rest) = Done tt ->
  shutdown_sample (snapshots w) = Some k ->
  exists before closes,
    trace (Live.main w)
    = before ++ Printf NoRemoteParticipants :: trace (teardown w) ++ closes
    /\ Forall running before
    /\ result (Live.main w) = result (teardown w).
Proof.
  intros Hopen Hread Hstart Hshut.
  destruct (live_main_trace w) as (closes & Htrace & _ & Hres).
  assert (Hmon : Live.monitor w
                 = (repeat (Sleep Second) k ++ [Printf NoRemoteParticipants],
                    Done tt)).
  { unfold Live.monitor. rewrite Hshut. reflexivity. }
  exists (trace (Live.open_pipes w)
          ++ trace (Live.read_dimensions (videoPipe w))
          ++ trace (Live.start_pipeline w width height rest)
          ++ repeat (Sleep Second) k), closes.
  split; [| split].
  - rewrite Htrace. unfold Live.main_body.
    rewrite trace_bind, Hopen, trace_bind, Hread.
    rewrite trace_bind, Hstart, trace_bind, Hmon.
    unfold trace at 4, result at 1. cbn [fst snd].
    rewrite <- !app_assoc. reflexivity.
  - repeat (apply Forall_app; split);
      auto using open_pipes_running, read_dimensions_running,
        start_pipeline_running.
    apply Forall_repeat. exact I.
  - rewrite Hres. unfold Live.main_body.
    rewrite result_bind, Hopen, result_bind, Hread.
    rewrite result_bind, Hstart, result_bind, Hmon. reflexivity.
Qed.

(** [stream-file.go]: once start-up is through, the 60-second sleep and
    the teardown remain. *)
Lemma file_main_teardown w :
  result (File.start_pipeline w) = Done tt ->
  trace (File.main w)
  = trace (File.start_pipeline w) ++ Sleep (60 * Second) :: trace (teardown w)
  /\ result (File.main w) = result (teardown w).
Proof.
  intros Hstart. unfold File.main.
  rewrite trace_bind, result_bind, Hstart.
  destruct (teardown w) as [t o]. split; reflexivity.
Qed.

(** C5: when the lifecycle ends -- in [stream.go] after start-up and
    the presence loop's break, in [stream-file.go] after start-up and
    the 60-second sleep -- and no callback has panicked, [main] prints
    the final statistics of the variables as they stand, kills the video
    and the audio encoder and disconnects from the room, then returns;
    none of these happens earlier in the run. *)
Theorem teardown_on_termination :
  (forall w width height rest k v out,
      result (Live.open_pipes w) = Done tt ->
      result (Live.read_dimensions (videoPipe w)) = Done (width, height, rest) ->
      result (Live.start_pipeline w width height rest) = Done tt ->
      shutdown_sample (snapshots w) = Some k ->
      run_callbacks (calls w) initVars = Some (v, out) ->
      exists before closes,
        trace (Live.main w)
        = before ++ Printf NoRemoteParticipants
            :: (map Printf (final_lines v)
                ++ [Kill Video; Kill Audio; Disconnect]) ++ closes
        /\ Forall running before
        /\ result (Live.main w) = Done tt)
  /\ (forall w v out,
         result (File.start_pipeline w) = Done tt ->
         run_callbacks (calls w) initVars = Some (v, out) ->
         trace (File.main w)
         = trace (File.start_pipeline w) ++ Sleep (60 * Second)
             :: map Printf (final_lines v)
                ++ [Kill Video; Kill Audio; Disconnect]
         /\ Forall running (trace (File.start_pipeline w))
         /\ result (File.main w) = Done tt).
Proof.
  split.
  - intros w width height rest k v out Hopen Hread Hstart Hshut Hrun.
    destruct (live_main_teardown w width height rest k Hopen Hread Hstart Hshut)
      as (before & closes & Htrace & Hbefore & Hres).
    rewrite (teardown_lines w v out Hrun) in Htrace, Hres.
    exists before, closes. auto.
  - intros w v out Hstart Hrun.
    destruct (file_main_teardown w Hstart) as [Htrace Hres].
    rewrite (teardown_lines w v out Hrun) in Htrace, Hres.
    auto using file_start_pipeline_running.
Qed.

(** A live run with a 512 x 480 header, no failing call, no callback
    yet and three empty peer snapshots; a file run with no failing
    call. *)
Lemma teardown_on_termination_witness :
  (exists before closes,
      trace (Live.main (mkWorld ["stream"; "room"]%string (fun _ => None)
               [Byte.x00; Byte.x02; Byte.x00; Byte.x00;
                Byte.xe0; Byte.x01; Byte.x00; Byte.x00] [] [] [[]; []; []]))
      = before ++ Printf NoRemoteParticipants
          :: (map Printf (final_lines initVars)
              ++ [Kill Video; Kill Audio; Disconnect]) ++ closes
      /\ Forall running before
      /\ result (Live.main (mkWorld ["stream"; "room"]%string (fun _ => None)
                   [Byte.x00; Byte.x02; Byte.x00; Byte.x00;
                    Byte.xe0; Byte.x01; Byte.x00; Byte.x00] [] []
                   [[]; []; []]))
         = Done tt)
  /\ result (File.main (mkWorld [] (fun _ => None) [] [] [] [])) = Done tt.
Proof.
  split.
  - apply (proj1 teardown_on_termination
             (mkWorld ["stream"; "room"]%string (fun _ => None)
                [Byte.x00; Byte.x02; Byte.x00; Byte.x00;
                 Byte.xe0; Byte.x01; Byte.x00; Byte.x00] [] [] [[]; []; []])
             512 480 [] 3%nat initVars []);
      reflexivity.
  - apply (proj2 teardown_on_termination
             (mkWorld [] (fun _ => None) [] [] [] []) initVars []);
      reflexivity.
Defined.

Lemma video_part_frameCount v v' :
  video_part v = video_part v' -> frameCount v = frameCount v'.
Proof. unfold video_part. intros [= H _]. exact H. Qed.

(** C10: at teardown, with the callbacks completed so far, the video
    line of the final statistics is printed exactly when the video
    closure ran at least twice (it then reports one interval fewer than
    invocations); the audio line is printed in every case, with count 0
    when the audio closure never ran.  Both programs reach these lines
    through the same teardown, and print no final statistics before. *)
Theorem final_statistics_report w :
  Z.of_nat (length (times Video (calls w))) <= 2 ^ 63 ->
  exists v out,
    run_callbacks (calls w) initVars = Some (v, out)
    /\ trace (teardown w)
       = map Printf (final_lines v) ++ [Kill Video; Kill Audio; Disconnect]
    /\ ((2 <= length (times Video (calls w)))%nat ->
        final_lines v
        = [FinalStatsVideo (Z.of_nat (length (times Video (calls w))) - 1)
             (wrap64 (Z.quot (totalEncodeTime v) (frameCount v)))
             (minEncodeTime v) (maxEncodeTime v);
           FinalStatsAudio (audioFrameCount v)])
    /\ ((length (times Video (calls w)) < 2)%nat ->
        final_lines v = [FinalStatsAudio (audioFrameCount v)])
    /\ (times Audio (calls w) = [] -> audioFrameCount v = 0)
    /\ (result (File.start_pipeline w) = Done tt ->
        trace (File.main w)
        = trace (File.start_pipeline w) ++ Sleep (60 * Second)
            :: trace (teardown w)
        /\ Forall running (trace (File.start_pipeline w)))
    /\ (forall width height rest k,
           result (Live.open_pipes w) = Done tt ->
           result (Live.read_dimensions (videoPipe w))
           = Done (width, height, rest) ->
           result (Live.start_pipeline w width height rest) = Done tt ->
           shutdown_sample (snapshots w) = Some k ->
           exists before closes,
             trace (Live.main w)
             = before ++ Printf NoRemoteParticipants
                 :: trace (teardown w) ++ closes
             /\ Forall running before).
Proof.
  intros Hroom.
  destruct (run_video_count_from_start (times Video (calls w)) Hroom)
    as (vv & outv & Hrunv & Hcases).
  pose proof (video_projection (calls w) initVars initVars eq_refl) as Hproj.
  rewrite Hrunv in Hproj.
  destruct (run_callbacks (calls w) initVars) as [[v out] |] eqn:Hrun;
    [| contradiction].
  destruct Hproj as [Hpart _]. apply video_part_frameCount in Hpart.
  exists v, out. split; [reflexivity |].
  split; [rewrite (teardown_lines w v out Hrun); reflexivity |].
  split; [| split; [| split; [| split]]].
  - intros Hlen. unfold final_lines.
    destruct Hcases as [[Hnil _] | (_ & _ & Hfc)];
      [rewrite Hnil in Hlen; simpl in Hlen; lia |].
    rewrite Hpart, Hfc.
    destruct (Z.gtb_spec (Z.of_nat (length (times Video (calls w))) - 1) 0);
      [reflexivity | lia].
  - intros Hlen. unfold final_lines.
    assert (Hzero : frameCount v = 0).
    { rewrite Hpart. destruct Hcases as [[_ ->] | (Hne & _ & Hfc)];
        [reflexivity |].
      rewrite Hfc.
      destruct (times Video (calls w)) as [| t [| t' l]];
        [contradiction | reflexivity | simpl in Hlen; lia]. }
    rewrite Hzero. reflexivity.
  - intros Hnone.
    destruct (audio_projection (calls w) initVars initVars v out eq_refl Hrun)
      as (va & oa & Hruna & Hparta & _).
    rewrite Hnone in Hruna. injection Hruna as <- <-.
    unfold audio_part in Hparta. injection Hparta as _ H _. exact H.
  - intros Hstart. split; [apply file_main_teardown; exact Hstart |].
    apply file_start_pipeline_running.
  - intros width height rest k Hopen Hread Hstart Hshut.
    destruct (live_main_teardown w width height rest k Hopen Hread Hstart Hshut)
      as (before & closes & Htrace & Hbefore & _).
    eauto.
Qed.

(** A file run in which the video closure ran once and the audio
    closure never: only the audio line is printed. *)
Lemma final_statistics_report_witness :
  exists v out,
    run_callbacks [(Video, mkTime 0 (Some 5000000))] initVars = Some (v, out)
    /\ trace (teardown (mkWorld [] (fun _ => None) [] []
                          [(Video, mkTime 0 (Some 5000000))] []))
       = [Printf (FinalStatsAudio 0); Kill Video; Kill Audio; Disconnect].
Proof.
  destruct (final_statistics_report
              (mkWorld [] (fun _ => None) [] []
                 [(Video, mkTime 0 (Some 5000000))] [])
              ltac:(simpl; lia))
    as (v & out & Hrun & Htrace & _ & Hone & Hnone & _).
  exists v, out. split; [exact Hrun |].
  rewrite Htrace, (Hone ltac:(simpl; lia)), (Hnone eq_refl). reflexivity.
Defined.

(** * Further properties *)

(** ** The presence loop, sample by sample *)

Lemma presence_tick_range s c :
  0 <= c <= 2 ->
  presence_tick s c = Break
  \/ exists c', presence_tick s c = Continue c' /\ 0 <= c' <= 2.
Proof.
  intros Hc. unfold presence_tick.
  destruct (Z.of_nat (length s) =? 0); [| right; exists 0; split; [reflexivity | lia]].
  rewrite wrap64_small by (unfold in_int64; lia).
  destruct (Z.geb_spec (c + 1) 3); [left; reflexivity |].
  right. exists (c + 1). split; [reflexivity | lia].
Qed.

Lemma presence_loop_three_empties post :
  forall c taken,
    0 <= c <= 2 ->
    presence_loop ([[]; []; []] ++ post) c taken <> None.
Proof.
  intros c taken Hc. cbn [app presence_loop]. unfold presence_tick.
  cbn [length Z.of_nat Z.eqb].
  rewrite (wrap64_small (c + 1)) by (unfold in_int64; lia).
  destruct (Z.geb_spec (c + 1) 3); [discriminate |].
  rewrite (wrap64_small (c + 1 + 1)) by (unfold in_int64; lia).
  destruct (Z.geb_spec (c + 1 + 1) 3); [discriminate |].
  rewrite (wrap64_small (c + 1 + 1 + 1)) by (unfold in_int64; lia).
  destruct (Z.geb_spec (c + 1 + 1 + 1) 3); [discriminate | lia].
Qed.

Lemma presence_loop_reaches pre post :
  forall c taken,
    0 <= c <= 2 ->
    presence_loop (pre ++ [[]; []; []] ++ post) c taken <> None.
Proof.
  induction pre as [| s pre IH]; intros c taken Hc.
  - apply presence_loop_three_empties. exact Hc.
  - cbn [app presence_loop].
    destruct (presence_tick_range s c Hc) as [-> | (c' & -> & Hc')];
      [discriminate | apply IH; exact Hc'].
Qed.

Lemma leading_empties_three l :
  leading_empties l = 3%nat ->
  exists rest, l = [] :: [] :: [] :: rest.
Proof.
  destruct l as [| [| ? ?] [| [| ? ?] [| [| ? ?] rest]]]; simpl;
    try discriminate; eauto.
Qed.

Lemma counting_start :
  counting [] 0%nat.
Proof.
  split; [reflexivity |]. intros j Hj. simpl in Hj.
  replace j with 0%nat by lia. unfold trailing_empties. simpl. lia.
Qed.

Lemma shutdown_after_three_empties snaps k :
  shutdown_sample snaps = Some k ->
  exists pre post,
    snaps = pre ++ [[]; []; []] ++ post /\ k = (length pre + 3)%nat.
Proof.
  intros Hk. unfold shutdown_sample in Hk.
  apply (presence_loop_counting snaps [] 0%nat k counting_start) in Hk.
  simpl in Hk. destruct Hk as ([_ Hlen] & H3 & _).
  unfold trailing_empties in H3.
  destruct (leading_empties_three _ H3) as [rest Hrev].
  apply (f_equal (@rev _)) in Hrev. rewrite rev_involutive in Hrev.
  simpl in Hrev. rewrite <- !app_assoc in Hrev. simpl in Hrev.
  exists (rev rest), (skipn k snaps). split.
  - rewrite <- (firstn_skipn k snaps) at 1. rewrite Hrev.
    rewrite <- app_assoc. reflexivity.
  - apply (f_equal (@length _)) in Hrev.
    rewrite length_firstn, length_app in Hrev. simpl in Hrev. lia.
Qed.

Lemma polling_iff_no_three_empties snaps :
  shutdown_sample snaps = None <-> ~ three_empties_in snaps.
Proof.
  split.
  - intros Hnone (pre & post & ->).
    apply (presence_loop_reaches pre post 0 0%nat ltac:(lia)). exact Hnone.
  - intros Hno. destruct (shutdown_sample snaps) as [k |] eqn:Hk;
      [| reflexivity].
    exfalso. apply Hno.
    destruct (shutdown_after_three_empties snaps k Hk) as (pre & post & H & _).
    exists pre, post. exact H.
Qed.

(** X1: the presence loop of [stream.go] is left exactly when three
    consecutive empty peer snapshots occur: it breaks at sample [k] only
    if [k >= 3] and samples [k-2], [k-1], [k] are empty, and it keeps
    polling on every sequence without three empties in a row. *)
Theorem shutdown_iff_three_empties snaps :
  (forall k, shutdown_sample snaps = Some k ->
             exists pre post,
               snaps = pre ++ [[]; []; []] ++ post
               /\ k = (length pre + 3)%nat)
  /\ (shutdown_sample snaps = None <-> ~ three_empties_in snaps).
Proof.
  split.
  - apply shutdown_after_three_empties.
  - apply polling_iff_no_three_empties.
Qed.

(** ** How [main] ends *)

Lemma ends_fatal_app t t' : ends_fatal t' -> ends_fatal (t ++ t').
Proof.
  unfold ends_fatal. rewrite rev_app_distr. intros H.
  destruct (rev t') as [| [] ?]; simpl in *; try contradiction; exact I.
Qed.

Lemma fatal_step_bind {A B} (m : M A) (f : A -> M B) :
  fatal_step m -> (forall a, fatal_step (f a)) -> fatal_step (bind m f).
Proof.
  intros [Hm Hexit] Hf. unfold fatal_step.
  rewrite trace_bind, result_bind.
  destruct (result m) as [a | c | |] eqn:Hres.
  - destruct (Hf a) as [Hfa Hfexit]. split.
    + apply Forall_app. auto.
    + intros H. apply ends_fatal_app. auto.
  - rewrite app_nil_r. split; [assumption |]. intros [= ->]. apply Hexit.
    reflexivity.
  - rewrite app_nil_r. split; [assumption | discriminate].
  - rewrite app_nil_r. split; [assumption | discriminate].
Qed.

Lemma fatal_exit_bind {A B} (m : M A) (f : A -> M B) :
  fatal_step m -> (forall a, fatal_exit (f a)) -> fatal_exit (bind m f).
Proof.
  intros [Hm Hexit] Hf. unfold fatal_exit.
  rewrite trace_bind, result_bind.
  destruct (result m) as [a | c | |] eqn:Hres.
  - intros H. destruct (Hf a H) as [Hfatal Hclean]. split.
    + apply ends_fatal_app. exact Hfatal.
    + apply Forall_app. auto.
  - rewrite app_nil_r. intros [= ->].
    split; [apply Hexit; reflexivity | assumption].
  - discriminate.
  - discriminate.
Qed.

Lemma fatal_step_emit e : no_cleanup e -> fatal_step (emit e).
Proof.
  intros H. split; [repeat constructor; exact H | discriminate].
Qed.

Lemma fatal_step_try w o e msg : no_cleanup e -> fatal_step (try w o e msg).
Proof.
  intros H. unfold try. destruct (failure w o).
  - split; [repeat constructor | intros _; exact I].
  - apply fatal_step_emit. exact H.
Qed.

Lemma fatal_step_try_quiet w o e msg :
  no_cleanup e -> fatal_step (try_quiet w o e msg).
Proof.
  intros H. unfold try_quiet. destruct (failure w o).
  - split; [repeat constructor | intros _; exact I].
  - apply fatal_step_emit. exact H.
Qed.

Lemma fatal_step_open_pipes w : fatal_step (Live.open_pipes w).
Proof.
  unfold Live.open_pipes.
  repeat (apply fatal_step_bind; [| intros _]);
    try (apply fatal_step_try; exact I);
    try (apply fatal_step_try_quiet; exact I);
    try (apply fatal_step_emit; exact I).
  destruct (length (args w) <? 2)%nat.
  - split; [repeat constructor | intros _; exact I].
  - split; [constructor | discriminate].
Qed.

Lemma fatal_step_read_dimensions pipe : fatal_step (Live.read_dimensions pipe).
Proof.
  unfold Live.read_dimensions.
  destruct (binary_Read_uint32 pipe) as [[w rest] | e];
    [| split; [repeat constructor | intros _; exact I]].
  destruct (binary_Read_uint32 rest) as [[h rest'] | e];
    [| split; [repeat constructor | intros _; exact I]].
  split; [repeat constructor | discriminate].
Qed.

Lemma fatal_step_connect w :
  fatal_step (match failure w OpConnectToRoom with
              | None => emit ConnectToRoom
              | Some e => panic e
              end).
Proof.
  destruct (failure w OpConnectToRoom).
  - split; [repeat constructor | discriminate].
  - apply fatal_step_emit. exact I.
Qed.

Lemma fatal_step_live_start_pipeline w width height rest :
  fatal_step (Live.start_pipeline w width height rest).
Proof.
  unfold Live.start_pipeline.
  repeat (apply fatal_step_bind; [| intros _]);
    try (apply fatal_step_try; exact I);
    try (apply fatal_step_try_quiet; exact I);
    try (apply fatal_step_emit; exact I).
  apply fatal_step_connect.
Qed.

Lemma fatal_step_file_start_pipeline w : fatal_step (File.start_pipeline w).
Proof.
  unfold File.start_pipeline.
  repeat (apply fatal_step_bind; [| intros _]);
    try (apply fatal_step_try; exact I);
    try (apply fatal_step_try_quiet; exact I);
    try (apply fatal_step_emit; exact I).
  apply fatal_step_connect.
Qed.

Lemma fatal_step_monitor w : fatal_step (Live.monitor w).
Proof.
  unfold Live.monitor. destruct (shutdown_sample (snapshots w)).
  - split; [| discriminate]. simpl. apply Forall_app.
    split; [apply Forall_repeat; exact I | repeat constructor].
  - split; [| discriminate]. simpl. apply Forall_repeat. exact I.
Qed.

Lemma teardown_result w :
  result (teardown w) = Done tt \/ result (teardown w) = Exit 2.
Proof.
  unfold teardown, observe_vars.
  destruct (run_callbacks (calls w) initVars) as [[v out] |];
    [| right; reflexivity].
  left. unfold ret, bind at 1. rewrite final_stats_lines. reflexivity.
Qed.

Lemma fatal_exit_teardown w : fatal_exit (teardown w).
Proof.
  intros H. destruct (teardown_result w) as [E | E]; rewrite E in H;
    discriminate.
Qed.

(** X2: whenever either program exits with status 1, the last thing it
    did was [log.Fatal], and it has killed no encoder, not disconnected
    from the room and closed no pipe: [os.Exit] skips the clean-up and
    the deferred calls. *)
Theorem fatal_exit_skips_cleanup w :
  fatal_exit (Live.main w) /\ fatal_exit (File.main w).
Proof.
  split.
  - assert (Hbody : fatal_exit (Live.main_body w)).
    { unfold Live.main_body.
      apply fatal_exit_bind; [apply fatal_step_open_pipes | intros _].
      apply fatal_exit_bind; [apply fatal_step_read_dimensions |].
      intros [[width height] rest].
      apply fatal_exit_bind;
        [apply fatal_step_live_start_pipeline | intros _].
      apply fatal_exit_bind; [apply fatal_step_monitor | intros _].
      apply fatal_exit_teardown. }
    unfold fatal_exit, Live.main in *.
    destruct (Live.main_body w) as [t [[] | c | |]]; simpl in *;
      try discriminate; exact Hbody.
  - unfold File.main.
    apply fatal_exit_bind; [apply fatal_step_file_start_pipeline | intros _].
    apply fatal_exit_bind; [apply fatal_step_emit; exact I | intros _].
    apply fatal_exit_teardown.
Qed.

(** A live run in which publishing the video track fails, after the
    audio track has been published and both encoders started. *)
Lemma fatal_exit_skips_cleanup_witness :
  result (Live.main
            (mkWorld ["stream"; "room"]%string
               (fun o => match o with
                         | OpPublishTrack Video => Some (ErrOther "refused"%string)
                         | _ => None
                         end)
               [Byte.x00; Byte.x02; Byte.x00; Byte.x00;
                Byte.xe0; Byte.x01; Byte.x00; Byte.x00] [] [] []))
  = Exit 1
  /\ ends_fatal
       (trace (Live.main
                 (mkWorld ["stream"; "room"]%string
                    (fun o => match o with
                              | OpPublishTrack Video =>
                                  Some (ErrOther "refused"%string)
                              | _ => None
                              end)
                    [Byte.x00; Byte.x02; Byte.x00; Byte.x00;
                     Byte.xe0; Byte.x01; Byte.x00; Byte.x00] [] [] [])))
  /\ Forall no_cleanup
       (trace (Live.main
                 (mkWorld ["stream"; "room"]%string
                    (fun o => match o with
                              | OpPublishTrack Video =>
                                  Some (ErrOther "refused"%string)
                              | _ => None
                              end)
                    [Byte.x00; Byte.x02; Byte.x00; Byte.x00;
                     Byte.xe0; Byte.x01; Byte.x00; Byte.x00] [] [] []))).
Proof.
  split; [reflexivity |].
  apply (proj1 (fatal_exit_skips_cleanup _)). reflexivity.
Defined.

Lemma result_bind_done {A B} (m : M A) (f : A -> M B) b :
  result (bind m f) = Done b ->
  exists a, result m = Done a /\ result (f a) = Done b.
Proof.
  rewrite result_bind. destruct (result m) as [a | c | |];
    try discriminate. eauto.
Qed.

Lemma monitor_polling w :
  shutdown_sample (snapshots w) = None ->
  Live.monitor w = (repeat (Sleep Second) (length (snapshots w)), Polling).
Proof. intros H. unfold Live.monitor. rewrite H. reflexivity. Qed.

Lemma deferred_running t : Forall running (Live.deferred t).
Proof.
  unfold Live.deferred.
  do 2 match goal with |- context [existsb ?f t] => destruct (existsb f t) end;
    repeat constructor.
Qed.

(** X3: while the peer snapshots of [stream.go] never show three
    consecutive empty sets, [main] does not return and prints no final
    statistics, kills no encoder and does not disconnect, whatever else
    happens; when start-up succeeded it is still polling, having slept
    one second per snapshot. *)
Theorem polling_never_tears_down w :
  ~ three_empties_in (snapshots w) ->
  Forall running (trace (Live.main w))
  /\ result (Live.main w) <> Done tt
  /\ (forall width height rest,
         result (Live.open_pipes w) = Done tt ->
         result (Live.read_dimensions (videoPipe w))
         = Done (width, height, rest) ->
         result (Live.start_pipeline w width height rest) = Done tt ->
         result (Live.main w) = Polling).
Proof.
  intros Hno. apply polling_iff_no_three_empties in Hno.
  pose proof (monitor_polling w Hno) as Hmon.
  destruct (live_main_trace w) as (closes & Htrace & Hcloses & Hres).
  rewrite Htrace, Hres. split; [| split].
  - apply Forall_app. split.
    + unfold Live.main_body.
      apply Forall_trace_bind; [apply open_pipes_running | intros _].
      apply Forall_trace_bind; [apply read_dimensions_running |].
      intros [[width height] rest].
      apply Forall_trace_bind; [apply start_pipeline_running | intros _].
      rewrite trace_bind, Hmon. simpl. rewrite app_nil_r.
      apply Forall_repeat. exact I.
    + destruct Hcloses as [-> | ->]; [constructor | apply deferred_running].
  - unfold Live.main_body. intros Hdone.
    apply result_bind_done in Hdone. destruct Hdone as (_ & _ & Hdone).
    apply result_bind_done in Hdone.
    destruct Hdone as ([[width height] rest] & _ & Hdone).
    apply result_bind_done in Hdone. destruct Hdone as (_ & _ & Hdone).
    apply result_bind_done in Hdone. destruct Hdone as (? & Hpoll & _).
    rewrite Hmon in Hpoll. discriminate Hpoll.
  - intros width height rest Hopen Hread Hstart. unfold Live.main_body.
    rewrite result_bind, Hopen, result_bind, Hread.
    rewrite result_bind, Hstart, result_bind, Hmon. reflexivity.
Qed.

(** A peer that stays for four samples, then two empty samples. *)
Lemma polling_never_tears_down_witness :
  result (Live.main
            (mkWorld ["stream"; "room"]%string (fun _ => None)
               [Byte.x00; Byte.x02; Byte.x00; Byte.x00;
                Byte.xe0; Byte.x01; Byte.x00; Byte.x00] [] []
               [["peer"%string]; ["peer"%string]; []; ["peer"%string];
                []; []]))
  <> Done tt.
Proof.
  apply (polling_never_tears_down
           (mkWorld ["stream"; "room"]%string (fun _ => None)
              [Byte.x00; Byte.x02; Byte.x00; Byte.x00;
               Byte.xe0; Byte.x01; Byte.x00; Byte.x00] [] []
              [["peer"%string]; ["peer"%string]; []; ["peer"%string];
               []; []])).
  apply polling_iff_no_three_empties. reflexivity.
Defined.

(** ** The room connection and the tracks *)

Lemma open_pipes_done w :
  result (Live.open_pipes w) = Done tt ->
  trace (Live.open_pipes w)
  = [LoadEnv; Remove Video; Remove Audio; Mkfifo Video; Mkfifo Audio;
     Printf (CreatedPipe "/tmp/video_pipe.yuv");
     Printf (CreatedPipe "/tmp/audio_pipe.raw");
     OpenFile Video; OpenFile Audio; Printf PipesOpened].
Proof.
  unfold Live.open_pipes, try, try_quiet.
  destruct (length (args w) <? 2)%nat; simpl; [discriminate |].
  branch_on_failures; try discriminate. reflexivity.
Qed.

Lemma read_dimensions_done pipe width height rest :
  result (Live.read_dimensions pipe) = Done (width, height, rest) ->
  trace (Live.read_dimensions pipe)
  = [Printf (ReceivedDimensions width height)].
Proof.
  unfold Live.read_dimensions.
  destruct (binary_Read_uint32 pipe) as [[w r] | e]; [| discriminate].
  destruct (binary_Read_uint32 r) as [[h r'] | e]; [| discriminate].
  simpl. intros [= -> -> _]. reflexivity.
Qed.

(** X4: when [ConnectToRoom] fails, both programs panic before any
    encoder is started or any track published.  In [stream.go], which
    has opened its two pipes by then, the deferred calls close the audio
    pipe and then the video pipe; [stream-file.go] has nothing to
    close. *)
Theorem connect_failure_panics w e :
  failure w OpConnectToRoom = Some e ->
  (forall width height rest,
      result (Live.open_pipes w) = Done tt ->
      result (Live.read_dimensions (videoPipe w))
      = Done (width, height, rest) ->
      Live.main w
      = (trace (Live.open_pipes w)
         ++ [Printf (ReceivedDimensions width height);
             Panic e; ClosePipe Audio; ClosePipe Video],
         Panicked))
  /\ (failure w OpLoadEnv = None ->
      File.main w = ([LoadEnv; Panic e], Panicked)).
Proof.
  intros Hconn. split.
  - intros width height rest Hopen Hread.
    pose proof (open_pipes_done w Hopen) as Hot.
    pose proof (read_dimensions_done _ _ _ _ Hread) as Hrt.
    assert (Hbody : Live.main_body w
                    = (trace (Live.open_pipes w)
                       ++ [Printf (ReceivedDimensions width height); Panic e],
                       Panicked)).
    { unfold Live.main_body.
      destruct (Live.open_pipes w) as [to ro]. simpl in Hopen, Hot |- *.
      subst ro.
      destruct (Live.read_dimensions (videoPipe w)) as [tr rr].
      simpl in Hread, Hrt. subst rr tr.
      unfold bind at 1 2. unfold Live.start_pipeline. rewrite Hconn.
      reflexivity. }
    unfold Live.main. rewrite Hbody, Hot. reflexivity.
  - intros Henv. unfold File.main, File.start_pipeline, try, try_quiet.
    rewrite Henv, Hconn. reflexivity.
Qed.

(** A refused connection in a live run with a 512 x 480 header. *)
Lemma connect_failure_panics_witness :
  Live.main
    (mkWorld ["stream"; "room"]%string
       (fun o => match o with
                 | OpConnectToRoom => Some (ErrOther "refused"%string)
                 | _ => None
                 end)
       [Byte.x00; Byte.x02; Byte.x00; Byte.x00;
        Byte.xe0; Byte.x01; Byte.x00; Byte.x00] [] [] [])
  = (trace (Live.open_pipes
              (mkWorld ["stream"; "room"]%string
                 (fun o => match o with
                           | OpConnectToRoom => Some (ErrOther "refused"%string)
                           | _ => None
                           end)
                 [Byte.x00; Byte.x02; Byte.x00; Byte.x00;
                  Byte.xe0; Byte.x01; Byte.x00; Byte.x00] [] [] []))
     ++ [Printf (ReceivedDimensions 512 480);
         Panic (ErrOther "refused"%string); ClosePipe Audio; ClosePipe Video],
     Panicked).
Proof.
  apply (proj1 (connect_failure_panics
                  (mkWorld ["stream"; "room"]%string
                     (fun o => match o with
                               | OpConnectToRoom =>
                                   Some (ErrOther "refused"%string)
                               | _ => None
                               end)
                     [Byte.x00; Byte.x02; Byte.x00; Byte.x00;
                      Byte.xe0; Byte.x01; Byte.x00; Byte.x00] [] [] [])
                  (ErrOther "refused"%string) eq_refl)
           512 480 [] eq_refl eq_refl).
Defined.

Lemma publishes_quiet_l t1 :
  forall c v a t2,
    Forall no_session_event t1 ->
    publishes_after_start c v a (t1 ++ t2) = publishes_after_start c v a t2.
Proof.
  induction t1 as [| e t1 IH]; intros c v a t2 H; [reflexivity |].
  inversion H as [| ? ? He Ht]; subst.
  destruct e; simpl in He |- *; try contradiction; auto.
Qed.

Lemma publishes_quiet_r t1 :
  forall c v a t2,
    Forall no_session_event t2 ->
    publishes_after_start c v a (t1 ++ t2) = publishes_after_start c v a t1.
Proof.
  induction t1 as [| e t1 IH]; intros c v a t2 H.
  - pose proof (publishes_quiet_l t2 c v a [] H) as E.
    rewrite app_nil_r in E. exact E.
  - destruct e as [| | | | | | | | | | [|] | | | | | |];
      simpl; rewrite ?IH by exact H; reflexivity.
Qed.

Lemma quiet_open_pipes w : Forall no_session_event (trace (Live.open_pipes w)).
Proof.
  unfold Live.open_pipes, try, try_quiet.
  destruct (length (args w) <? 2)%nat; simpl; [repeat constructor |].
  branch_on_failures; repeat constructor.
Qed.

Lemma quiet_read_dimensions pipe :
  Forall no_session_event (trace (Live.read_dimensions pipe)).
Proof.
  unfold Live.read_dimensions.
  destruct (binary_Read_uint32 pipe) as [[w rest] | e];
    [| repeat constructor].
  destruct (binary_Read_uint32 rest) as [[h rest'] | e];
    repeat constructor.
Qed.

Lemma quiet_monitor w : Forall no_session_event (trace (Live.monitor w)).
Proof.
  unfold Live.monitor.
  destruct (shutdown_sample (snapshots w)); simpl.
  - apply Forall_app. split; [apply Forall_repeat; exact I | repeat constructor].
  - apply Forall_repeat. exact I.
Qed.

Lemma quiet_teardown w : Forall no_session_event (trace (teardown w)).
Proof.
  unfold teardown, observe_vars, final_stats.
  destruct (run_callbacks (calls w) initVars) as [[v out] |]; simpl.
  - destruct (frameCount v >? 0); simpl.
    + destruct (div64 (totalEncodeTime v) (frameCount v)); simpl;
        repeat constructor.
    + repeat constructor.
  - repeat constructor.
Qed.

Lemma quiet_deferred t : Forall no_session_event (Live.deferred t).
Proof.
  unfold Live.deferred.
  do 2 match goal with |- context [existsb ?f t] => destruct (existsb f t) end;
    repeat constructor.
Qed.

Lemma live_start_pipeline_publishes w width height rest :
  publishes_after_start false false false
    (trace (Live.start_pipeline w width height rest)) = true.
Proof.
  unfold Live.start_pipeline, try.
  branch_on_failures; reflexivity.
Qed.

Lemma file_start_pipeline_publishes w :
  publishes_after_start false false false (trace (File.start_pipeline w))
  = true.
Proof.
  unfold File.start_pipeline, try, try_quiet.
  branch_on_failures; reflexivity.
Qed.

(** X5: in every run of either program, whichever calls fail, a track
    is published only after the room connection succeeded and both
    encoder processes were started. *)
Theorem publish_only_after_start w :
  publishes_after_start false false false (trace (Live.main w)) = true
  /\ publishes_after_start false false false (trace (File.main w)) = true.
Proof.
  split.
  - destruct (live_main_trace w) as (closes & Htrace & Hcloses & _).
    assert (Hq : Forall no_session_event closes)
      by (destruct Hcloses as [-> | ->]; [constructor | apply quiet_deferred]).
    rewrite Htrace, publishes_quiet_r by exact Hq.
    unfold Live.main_body.
    rewrite trace_bind, publishes_quiet_l by apply quiet_open_pipes.
    destruct (result (Live.open_pipes w)); try reflexivity.
    rewrite trace_bind, publishes_quiet_l by apply quiet_read_dimensions.
    destruct (result (Live.read_dimensions (videoPipe w)))
      as [[[width height] rest] | | |]; try reflexivity.
    rewrite trace_bind, publishes_quiet_r.
    + apply live_start_pipeline_publishes.
    + destruct (result (Live.start_pipeline w width height rest));
        try constructor.
      apply Forall_trace_bind; [apply quiet_monitor | intros _].
      apply quiet_teardown.
  - unfold File.main. rewrite trace_bind, publishes_quiet_r.
    + apply file_start_pipeline_publishes.
    + destruct (result (File.start_pipeline w)); try constructor.
      apply Forall_trace_bind; [repeat constructor | intros _].
      apply quiet_teardown.
Qed.

(** ** More on the completion callbacks *)

Lemma fold_min_init mn e l :
  fold_right Z.min (Z.min mn e) l = Z.min e (fold_right Z.min mn l).
Proof. induction l as [| x l IH]; simpl; lia. Qed.

Lemma fold_max_init mx e l :
  fold_right Z.max (Z.max mx e) l = Z.max e (fold_right Z.max mx l).
Proof. induction l as [| x l IH]; simpl; lia. Qed.

Lemma last_cons {A} (x : A) l d d' : last (x :: l) d = last (x :: l) d'.
Proof.
  revert x. induction l as [| y l IH]; intros x; [reflexivity |].
  change (last (x :: y :: l) d) with (last (y :: l) d).
  change (last (x :: y :: l) d') with (last (y :: l) d').
  apply IH.
Qed.

Lemma last_cons_default {A} (x : A) l d : last (x :: l) d = last l x.
Proof.
  destruct l as [| y l]; [reflexivity |].
  change (last (x :: y :: l) d) with (last (y :: l) d).
  apply last_cons.
Qed.

Lemma sum_intervals prev ts :
  sum (intervals prev ts) = reading (last ts prev) - reading prev.
Proof.
  revert prev. induction ts as [| t rest IH]; intros prev; [simpl; lia |].
  cbn [intervals sum fold_right]. fold (sum (intervals t rest)).
  rewrite IH, (last_cons_default t rest prev). lia.
Qed.

(** After the first invocation the minimum and the maximum are folded
    over the intervals, starting from the values they had. *)
Lemma run_video_extremes ts :
  forall v prev,
    firstVideoFrame v = true ->
    lastFrameTime v = prev ->
    fromNow prev ->
    Forall fromNow ts ->
    0 <= frameCount v ->
    frameCount v + Z.of_nat (length ts) < 2 ^ 63 ->
    exists v' out,
      run_video ts v = Some (v', out)
      /\ minEncodeTime v' = fold_right Z.min (minEncodeTime v) (intervals prev ts)
      /\ maxEncodeTime v' = fold_right Z.max (maxEncodeTime v) (intervals prev ts)
      /\ lastFrameTime v' = last ts prev
      /\ startTime v' = startTime v.
Proof.
  induction ts as [| t rest IH];
    intros v prev Hfirst Hlast Hprev Hts Hfc Hroom.
  - exists v, []. simpl. auto.
  - inversion Hts as [| ? ? Ht Hrest]; subst.
    cbn [length] in Hroom. rewrite Nat2Z.inj_succ in Hroom.
    destruct (video_later t v Hfirst ltac:(lia))
      as (v1 & Hstep & Hfc1 & _ & Hmax1 & Hmin1 & Hlast1 & Hstart1
          & Hfirst1 & _).
    rewrite (Sub_fromNow _ _ Ht Hprev) in *.
    destruct (IH v1 t Hfirst1 Hlast1 Ht Hrest ltac:(lia) ltac:(lia))
      as (v' & out & Hrun & Hmin & Hmax & Hlast & Hstart).
    rewrite run_video_cons, Hstep, Hrun. do 2 eexists.
    split; [reflexivity |]. cbn [intervals fold_right].
    rewrite Hmin, Hmax, Hmin1, Hmax1, fold_min_init, fold_max_init.
    repeat split; try congruence.
    rewrite Hlast. symmetry. apply last_cons_default.
Qed.

(** X6: for every interleaving of the two callbacks in which the video
    callback ran at least once (and at most 2^63 times, at times read
    from [time.Now()]), the video statistics are those of the video
    invocations alone: [startTime] is the first and [lastFrameTime] the
    last video timestamp, the total is the time elapsed between them,
    the recorded minimum is the smallest interval capped at one hour and
    the recorded maximum the largest interval, at least zero. *)
Theorem video_statistics_exact calls :
  (1 <= length (times Video calls))%nat ->
  Z.of_nat (length (times Video calls)) <= 2 ^ 63 ->
  Forall fromNow (times Video calls) ->
  exists v out,
    run_callbacks calls initVars = Some (v, out)
    /\ startTime v = first_time (times Video calls)
    /\ lastFrameTime v = last_time (times Video calls)
    /\ frameCount v = Z.of_nat (length (times Video calls)) - 1
    /\ totalEncodeTime v
       = reading (last_time (times Video calls))
         - reading (first_time (times Video calls))
    /\ minEncodeTime v
       = fold_right Z.min Hour (observed_intervals (times Video calls))
    /\ maxEncodeTime v
       = fold_right Z.max 0 (observed_intervals (times Video calls)).
Proof.
  intros Hlen Hroom Hts.
  destruct (run_video_from_start _ Hlen Hts Hroom)
    as (vv & outv & Hrunv & Hfc & Htot & _ & _ & _).
  pose proof (video_projection calls initVars initVars eq_refl) as Hproj.
  rewrite Hrunv in Hproj.
  destruct (run_callbacks calls initVars) as [[v out] |];
    [| contradiction].
  destruct Hproj as [Hpart _]. exists v, out. split; [reflexivity |].
  unfold video_part in Hpart.
  injection Hpart as Hp1 Hp2 Hp3 Hp4 Hp5 Hp6 _ _.
  rewrite Hp1, Hp2, Hp3, Hp4, Hp5, Hp6. clear Hp1 Hp2 Hp3 Hp4 Hp5 Hp6.
  destruct (times Video calls) as [| t0 rest]; [simpl in Hlen; lia |].
  inversion Hts as [| ? ? Ht0 Hrest]; subst.
  cbn [length] in Hroom. rewrite Nat2Z.inj_succ in Hroom.
  set (v1 := set_lastFrameTime t0
               (set_firstVideoFrame true (set_startTime t0 initVars))).
  destruct (run_video_extremes rest v1 t0 eq_refl eq_refl Ht0 Hrest
              ltac:(simpl; lia) ltac:(simpl; lia))
    as (v' & out' & Hrun' & Hmin & Hmax & Hlast & Hstart).
  rewrite run_video_cons, video_first in Hrunv by reflexivity.
  fold v1 in Hrunv. rewrite Hrun' in Hrunv. injection Hrunv as <- _.
  unfold first_time, last_time. cbn [hd observed_intervals].
  rewrite Htot. cbn [observed_intervals]. rewrite sum_intervals.
  rewrite (last_cons_default t0 rest zeroTime). repeat split; assumption.
Qed.

(** Video at 5, 45 and 95 ms with an audio invocation in between. *)
Lemma video_statistics_exact_witness :
  exists v out,
    run_callbacks [(Video, mkTime 0 (Some 5000000));
                   (Audio, mkTime 0 (Some 10000000));
                   (Video, mkTime 0 (Some 45000000));
                   (Video, mkTime 0 (Some 95000000))] initVars
    = Some (v, out)
    /\ totalEncodeTime v = 90000000
    /\ minEncodeTime v = 40000000
    /\ maxEncodeTime v = 50000000.
Proof.
  destruct (video_statistics_exact
              [(Video, mkTime 0 (Some 5000000));
               (Audio, mkTime 0 (Some 10000000));
               (Video, mkTime 0 (Some 45000000));
               (Video, mkTime 0 (Some 95000000))])
    as (v & out & Hrun & _ & _ & _ & Htot & Hmin & Hmax).
  - simpl. lia.
  - simpl. lia.
  - repeat constructor; eexists; (split; [reflexivity | lia]).
  - exists v, out. split; [exact Hrun |].
    split; [exact Htot | split; [exact Hmin | exact Hmax]].
Defined.

(** X7: the video callback panics (integer division by zero in the
    periodic report) exactly when it is past its first invocation and
    the increment wraps the frame counter to zero; the audio callback
    never panics. *)
Theorem callback_panics now v :
  (videoOnWriteComplete now v = None
   <-> firstVideoFrame v = true /\ wrap64 (frameCount v + 1) = 0)
  /\ audioOnWriteComplete now v <> None.
Proof.
  split.
  - destruct v as [fc lft tot mx mn st fv fa vb ab afc].
    unfold videoOnWriteComplete.
    cbv beta iota zeta delta
      [negb set_frameCount set_lastFrameTime set_totalEncodeTime
       set_maxEncodeTime set_minEncodeTime set_startTime set_firstVideoFrame
       frameCount lastFrameTime
       totalEncodeTime maxEncodeTime minEncodeTime startTime firstVideoFrame
       firstAudioFrame videoBytesRead audioBytesRead audioFrameCount].
    destruct fv; [| split; [discriminate | intros [? _]; discriminate]].
    unfold div64, rem64.
    destruct (Z.eqb_spec (wrap64 (fc + 1)) 0) as [Hz | Hnz].
    + rewrite Hz.
      destruct (Sub now lft >? mx), (Sub now lft <? mn); simpl;
        split; auto.
    + destruct (Sub now lft >? mx), (Sub now lft <? mn);
        cbv beta iota;
        destruct (Z.rem (wrap64 (fc + 1)) 100 =? 0);
        try (destruct (Z.eqb_spec (wrap64 (fc + 1)) 0) as [? | _];
             [contradiction |]);
        cbv beta iota;
        (split; [discriminate | intros [_ ?]; contradiction]).
  - destruct (audio_total now v) as (v' & out & -> & _). discriminate.
Qed.

(** ** More on the start-code scanner *)

Lemma scan_loop_chained name p iters :
  forall i start found,
    0 <= start <= i ->
    scan_loop name p iters i start = Some found ->
    chained name start (i + Z.of_nat iters) found.
Proof.
  induction iters as [| iters IH]; intros i start found Hs Hrun.
  - injection Hrun as <-. exact I.
  - cbn [scan_loop] in Hrun. rewrite Nat2Z.inj_succ.
    replace (i + Z.succ (Z.of_nat iters)) with (i + 1 + Z.of_nat iters) by lia.
    destruct (start_code_at p i) as [[|] |]; [| | discriminate].
    + destruct (scan_loop name p iters (i + 1) i) as [rest |] eqn:Hrest;
        [| discriminate].
      injection Hrun as <-.
      pose proof (IH (i + 1) i rest ltac:(lia) Hrest) as Hchain.
      destruct (Z.ltb_spec start i) as [Hlt | Hge].
      * cbn [app chained]. repeat split; try lia. exact Hchain.
      * replace start with i by lia. exact Hchain.
    + apply (IH (i + 1) start found ltac:(lia) Hrun).
Qed.

Lemma chained_sum name hi out :
  forall lo,
    chained name lo hi out ->
    sum (chunk_sizes out) = last (report_offsets out) lo - lo.
Proof.
  induction out as [| l rest IH]; intros lo H; [simpl; lia |].
  destruct l; try contradiction.
  cbn [chained] in H. destruct H as (_ & _ & -> & Hrest).
  cbn [chunk_sizes report_offsets sum fold_right].
  fold (sum (chunk_sizes rest)).
  rewrite (IH _ Hrest), last_cons_default. lia.
Qed.

(** X8: whatever a scan prints before its "Read n bytes" line is a chain
    of start-code lines of this reader with strictly increasing offsets
    between 1 and [n - 5], each chunk size being the distance to the
    previous reported offset (to offset 0 for the first line); the chunk
    sizes therefore add up to the last reported offset. *)
Theorem scan_reports_chain name p n found :
  scan name p n = Some found ->
  chained name 0 (n - 4) found
  /\ sum (chunk_sizes found) = last (report_offsets found) 0.
Proof.
  intros Hscan. unfold scan in Hscan.
  assert (Hchain : chained name 0 (n - 4) found).
  { destruct (Z.to_nat (n - 4)) as [| m] eqn:Hm.
    - injection Hscan as <-. exact I.
    - pose proof (scan_loop_chained name p (S m) 0 0 found ltac:(lia) Hscan)
        as H.
      replace (0 + Z.of_nat (S m)) with (n - 4) in H by lia. exact H. }
  split; [exact Hchain |].
  rewrite (chained_sum _ _ _ _ Hchain). lia.
Qed.

(** A 12-byte read with start codes at offsets 2 and 6. *)
Lemma scan_reports_chain_witness :
  chained "Video"%string 0 (12 - 4)
    [FoundStartCode "Video"%string 2 2; FoundStartCode "Video"%string 6 4]
  /\ sum (chunk_sizes [FoundStartCode "Video"%string 2 2;
                       FoundStartCode "Video"%string 6 4])
     = last (report_offsets [FoundStartCode "Video"%string 2 2;
                             FoundStartCode "Video"%string 6 4]) 0.
Proof.
  apply (scan_reports_chain "Video"%string
           [Byte.x09; Byte.x09; Byte.x00; Byte.x00; Byte.x01; Byte.x09;
            Byte.x00; Byte.x00; Byte.x01; Byte.x09; Byte.x09; Byte.x09] 12).
  reflexivity.
Defined.

Lemma skipn_succ_tl {A} (l : list A) k : skipn (S k) l = tl (skipn k l).
Proof.
  revert l. induction k as [| k IH]; intros l.
  - destruct l; reflexivity.
  - destruct l as [| x l]; [reflexivity |].
    change (skipn (S (S k)) (x :: l)) with (skipn (S k) l).
    change (skipn (S k) (x :: l)) with (skipn k l). apply IH.
Qed.

Lemma matches_four_then_three q :
  matches [0; 0; 0; 1] q = true -> matches [0; 0; 1] (tl q) = true.
Proof.
  destruct q as [| a [| b [| c [| d q]]]]; simpl; try discriminate;
    try (destruct (byte_val a =? 0); discriminate);
    try (destruct (byte_val a =? 0), (byte_val b =? 0); discriminate);
    try (destruct (byte_val a =? 0), (byte_val b =? 0), (byte_val c =? 0);
         discriminate).
  destruct (byte_val a =? 0), (byte_val b =? 0), (byte_val c =? 0),
    (byte_val d =? 1); simpl; try discriminate; reflexivity.
Qed.

(** X9: a four-byte start code 00 00 00 01 at an offset [i] with
    [0 < i < n - 5] is reported twice: at [i], and at [i + 1] with chunk
    size 1, because its last three bytes are the start code 00 00 01. *)
Theorem four_byte_code_reported_twice name p n i :
  0 <= n <= Z.of_nat (length p) ->
  0 < i < n - 5 ->
  matches [0; 0; 0; 1] (skipn (Z.to_nat i) (firstn (Z.to_nat n) p)) = true ->
  exists found,
    scan name p n = Some found
    /\ In (FoundStartCode name i (i - last_start p n (Z.to_nat i))) found
    /\ In (FoundStartCode name (i + 1) 1) found.
Proof.
  intros Hn Hi Hfour.
  assert (Hocc : occurs_at p n i = true).
  { unfold occurs_at. rewrite Hfour.
    destruct (Z.leb_spec 0 i); [reflexivity | lia]. }
  assert (Hocc' : occurs_at p n (i + 1) = true).
  { unfold occurs_at.
    replace (Z.to_nat (i + 1)) with (S (Z.to_nat i)) by lia.
    rewrite skipn_succ_tl, (matches_four_then_three _ Hfour).
    destruct (Z.leb_spec 0 (i + 1)); [| lia].
    rewrite orb_true_r. reflexivity. }
  eexists. split; [apply scan_reports; exact Hn |]. split.
  - apply in_flat_map. exists (Z.to_nat i). split; [apply in_seq; lia |].
    unfold report. rewrite Z2Nat.id by lia. rewrite Hocc.
    destruct (Z.ltb_spec 0 i); [| lia]. simpl. auto.
  - apply in_flat_map. exists (S (Z.to_nat i)). split; [apply in_seq; lia |].
    unfold report. cbn [last_start].
    rewrite Nat2Z.inj_succ, Z2Nat.id by lia.
    replace (Z.succ i) with (i + 1) by lia. rewrite Hocc, Hocc'.
    destruct (Z.ltb_spec 0 (i + 1)); [| lia]. simpl. left. f_equal. lia.
Qed.

(** The read 09 00 00 00 01 09 09 09 09 09: one four-byte start code at
    offset 1, two lines. *)
Lemma four_byte_code_reported_twice_witness :
  exists found,
    scan "Video"%string
      [Byte.x09; Byte.x00; Byte.x00; Byte.x00; Byte.x01; Byte.x09;
       Byte.x09; Byte.x09; Byte.x09; Byte.x09] 10 = Some found
    /\ In (FoundStartCode "Video"%string 1
             (1 - last_start
                    [Byte.x09; Byte.x00; Byte.x00; Byte.x00; Byte.x01;
                     Byte.x09; Byte.x09; Byte.x09; Byte.x09; Byte.x09] 10
                    (Z.to_nat 1))) found
    /\ In (FoundStartCode "Video"%string (1 + 1) 1) found.
Proof.
  apply (four_byte_code_reported_twice "Video"%string
           [Byte.x09; Byte.x00; Byte.x00; Byte.x00; Byte.x01; Byte.x09;
            Byte.x09; Byte.x09; Byte.x09; Byte.x09] 10 1).
  - simpl. lia.
  - lia.
  - reflexivity.
Defined.

(** ** The header read, case by case *)

(** X10: the header read of [stream.go] consumes exactly the first 8
    bytes of the video pipe and accepts any 8 bytes, both dimensions
    being below 2^32; with fewer bytes the fatal message names the read
    that failed -- the width with fewer than 4 bytes, the height with 4
    to 7 -- and carries [EOF] when the pipe closed on a field boundary
    (0 or 4 bytes) and [ErrUnexpectedEOF] otherwise. *)
Theorem read_dimensions_outcome pipe :
  ((length pipe < 8)%nat ->
   Live.read_dimensions pipe
   = ([Fatal (fst (header_failure (length pipe)))
         (Some (snd (header_failure (length pipe))))], Exit 1))
  /\ ((8 <= length pipe)%nat ->
      exists width height,
        Live.read_dimensions pipe
        = ([Printf (ReceivedDimensions width height)],
           Done (width, height, skipn 8 pipe))
        /\ 0 <= width < 2 ^ 32 /\ 0 <= height < 2 ^ 32).
Proof.
  destruct pipe as [| b0 [| b1 [| b2 [| b3 [| b4 [| b5 [| b6 [| b7 rest]]]]]]]];
    (split; [intros H | intros H; simpl in H; try lia]);
    try reflexivity.
  - simpl in H. lia.
  - rewrite read_dimensions_header. do 2 eexists. split; [reflexivity |].
    split; apply LittleEndian_Uint32_value.
Qed.

(** A pipe that closes after 6 bytes, and one with 9 bytes. *)
Lemma read_dimensions_outcome_witness :
  Live.read_dimensions
    [Byte.x00; Byte.x02; Byte.x00; Byte.x00; Byte.xe0; Byte.x01]
  = ([Fatal "Error reading frame height:"%string (Some ErrUnexpectedEOF)],
     Exit 1)
  /\ exists width height,
       Live.read_dimensions
         [Byte.x00; Byte.x02; Byte.x00; Byte.x00;
          Byte.xe0; Byte.x01; Byte.x00; Byte.x00; Byte.x7f]
       = ([Printf (ReceivedDimensions width height)],
          Done (width, height, [Byte.x7f]))
       /\ 0 <= width < 2 ^ 32 /\ 0 <= height < 2 ^ 32.
Proof.
  split.
  - apply (proj1 (read_dimensions_outcome
                    [Byte.x00; Byte.x02; Byte.x00; Byte.x00;
                     Byte.xe0; Byte.x01])).
    simpl. lia.
  - apply (proj2 (read_dimensions_outcome
                    [Byte.x00; Byte.x02; Byte.x00; Byte.x00;
                     Byte.xe0; Byte.x01; Byte.x00; Byte.x00; Byte.x7f])).
    simpl. lia.
Defined.

(** ** [DebugReader] over a sequence of reads *)

(** X11: a consumer that reads through a [DebugReader] gets, call after
    call, exactly the buffer contents, counts and errors the wrapped
    reader produces, and panics only where the wrapped reader does; the
    wrapper keeps its name and adds one "Read n bytes" line to each call
    with [n > 0] in [stream-file.go] and nothing in [stream.go]. *)
Theorem DebugReader_transparent (verbose : bool) {R} `{ReadCloser R}
  (name : string) (bufs : list (list byte)) :
  forall r : R,
    read_calls (DebugReader_Read verbose) (mkDebugReader r name) bufs
    = match read_calls Read r bufs with
      | Some (r', results) =>
          Some (mkDebugReader r' name, map (debug_line verbose name) results)
      | None => None
      end.
Proof.
  induction bufs as [| p rest IH]; intros r; [reflexivity |].
  cbn [read_calls]. unfold DebugReader_Read at 1. cbn [d_reader d_name].
  destruct (Read r p) as [res |]; [| reflexivity].
  cbn [rr_reader rr_p rr_n rr_err rr_out]. rewrite IH.
  destruct (read_calls Read (rr_reader res) rest) as [[r' results] |];
    reflexivity.
Qed.

(** ** [H264Reader] over a sequence of reads *)

Lemma scan_output_reports name p n :
  0 <= n <= Z.of_nat (length p) ->
  scan_output name p n
  = Some (if n >? 0 then
            flat_map (report name p n) (seq 0 (Z.to_nat (n - 4)))
            ++ [ReadBytes name n]
          else []).
Proof.
  intros Hn. unfold scan_output. rewrite scan_reports by exact Hn.
  destruct (n >? 0); reflexivity.
Qed.

(** X12: over any sequence of reads whose results obey the [io.Reader]
    contract, a consumer reading through an [H264Reader] gets the same
    buffer contents, counts and errors as from the wrapped reader, and
    the lines added to a call are computed from that call's buffer
    alone: nothing is carried from one read to the next, so a start code
    that straddles two reads is reported by neither. *)
Theorem H264Reader_stateless {R} `{ReadCloser R}
  (name : string) (buffer : list byte) (bufs : list (list byte)) :
  forall (r r' : R) results,
    read_calls Read r bufs = Some (r', results) ->
    Forall call_contract results ->
    read_calls H264Reader_Read (mkH264Reader r name buffer) bufs
    = Some (mkH264Reader r' name buffer, map (h264_lines name) results).
Proof.
  induction bufs as [| p rest IH]; intros r r' results Hrun Hok.
  - injection Hrun as <- <-. reflexivity.
  - cbn [read_calls] in Hrun |- *. unfold H264Reader_Read at 1.
    cbn [h_reader h_name h_buffer].
    destruct (Read r p) as [res |]; [| discriminate].
    destruct (read_calls Read (rr_reader res) rest) as [[r1 results1] |] eqn:Hrest;
      [| discriminate].
    injection Hrun as <- <-.
    inversion Hok as [| ? ? Hcall Hrest_ok]; subst.
    cbn [call_contract] in Hcall.
    rewrite (scan_output_reports name _ _ Hcall).
    cbn [rr_reader rr_p rr_n rr_err rr_out].
    rewrite (IH (rr_reader res) r1 results1 Hrest Hrest_ok).
    reflexivity.
Qed.

(** The start code 00 00 01 split over two 6-byte reads of a pipe: the
    first read ends in 00 00, the second begins with 01. *)
Lemma H264Reader_stateless_witness :
  read_calls H264Reader_Read
    (mkH264Reader
       [Byte.x09; Byte.x09; Byte.x09; Byte.x09; Byte.x00; Byte.x00;
        Byte.x01; Byte.x09; Byte.x09; Byte.x09; Byte.x09; Byte.x09]
       "Video"%string [])
    [repeat Byte.x00 6; repeat Byte.x00 6]
  = Some (mkH264Reader [] "Video"%string [],
          [([Byte.x09; Byte.x09; Byte.x09; Byte.x09; Byte.x00; Byte.x00],
            6, None, [ReadBytes "Video"%string 6]);
           ([Byte.x01; Byte.x09; Byte.x09; Byte.x09; Byte.x09; Byte.x09],
            6, None, [ReadBytes "Video"%string 6])]).
Proof.
  apply (H264Reader_stateless "Video"%string []
           [repeat Byte.x00 6; repeat Byte.x00 6]
           [Byte.x09; Byte.x09; Byte.x09; Byte.x09; Byte.x00; Byte.x00;
            Byte.x01; Byte.x09; Byte.x09; Byte.x09; Byte.x09; Byte.x09]
           []
           [([Byte.x09; Byte.x09; Byte.x09; Byte.x09; Byte.x00; Byte.x00],
             6, None, []);
            ([Byte.x01; Byte.x09; Byte.x09; Byte.x09; Byte.x09; Byte.x09],
             6, None, [])]).
  - reflexivity.
  - repeat constructor; simpl; lia.
Defined.
